(** * Spaceflight News: the data loader, the API client and the article utilities

    A shallow embedding of the TypeScript sources

    - [app/services/spaceflight-api.ts]   (module [ApiClient]),
    - the index route's [loader]            (module [IndexRoute]),
    - [app/utils/article-utils.ts]         (module [ArticleUtils]),
    - [app/utils/index.ts]                 (module [Utils]),

    together with the small part of the JavaScript runtime these files call
    (strings, numbers, [parseInt], [Array.prototype.sort], arrays held by
    reference). *)

From Stdlib Require Import ZArith String Ascii List Lia DecimalString.
From stdpp Require Import base option list sorting gmap strings.

Local Open Scope string_scope.
Local Open Scope Z_scope.

(** ** JavaScript strings

    A string is a sequence of UTF-16 code units.  The embedding keeps the code
    units below 256 (one [ascii] each); every string constant of the sources
    lies in that range. *)

Module JsString.

(** [WhiteSpace] and [LineTerminator] code points below 256:
    TAB, LF, VT, FF, CR, SP and NBSP. *)
Definition isWhiteSpace (c : ascii) : bool :=
  let n := N_of_ascii c in
  ((9 <=? n)%N && (n <=? 13)%N) || (n =? 32)%N || (n =? 160)%N.

Fixpoint trimStart (s : string) : string :=
  match s with
  | EmptyString => EmptyString
  | String c s' => if isWhiteSpace c then trimStart s' else s
  end.

Fixpoint trimEnd (s : string) : string :=
  match s with
  | EmptyString => EmptyString
  | String c s' =>
      match trimEnd s' with
      | EmptyString => if isWhiteSpace c then EmptyString else String c EmptyString
      | r => String c r
      end
  end.

(** [String.prototype.trim]: white space is removed at both ends. *)
Definition trim (s : string) : string := trimEnd (trimStart s).

(** Lower-case mapping of one code unit: A-Z, and the Latin-1 capitals
    U+00C0..U+00DE except the multiplication sign U+00D7. *)
Definition toLowerChar (c : ascii) : ascii :=
  let n := N_of_ascii c in
  if ((65 <=? n)%N && (n <=? 90)%N)
     || ((192 <=? n)%N && (n <=? 222)%N && negb (n =? 215)%N)
  then ascii_of_N (n + 32) else c.

Fixpoint toLowerCase (s : string) : string :=
  match s with
  | EmptyString => EmptyString
  | String c s' => String (toLowerChar c) (toLowerCase s')
  end.

(** [s.includes(sub)]: [sub] occurs somewhere in [s]. *)
Fixpoint includes (s sub : string) : bool :=
  String.prefix sub s
  || match s with
     | EmptyString => false
     | String _ s' => includes s' sub
     end.

Fixpoint drop (n : nat) (s : string) : string :=
  match n, s with
  | O, _ => s
  | S _, EmptyString => EmptyString
  | S n', String _ s' => drop n' s'
  end.

(** [s.replace(pat, repl)] for a string pattern: only the first occurrence
    is replaced.  (The [$]-patterns of the replacement text are not
    modelled; the sources replace by the empty string.) *)
Fixpoint replace (s pat repl : string) : string :=
  if String.prefix pat s then repl +:+ drop (String.length pat) s
  else match s with
       | EmptyString => EmptyString
       | String c s' => String c (replace s' pat repl)
       end.

(** [s.slice(start, end)] with integer arguments: a negative index counts
    from the end of the string, and both are clamped to [0, length]. *)
Definition slice (s : string) (start end_ : Z) : string :=
  let len := Z.of_nat (String.length s) in
  let from := if start <? 0 then Z.max (len + start) 0 else Z.min start len in
  let to := if end_ <? 0 then Z.max (len + end_) 0 else Z.min end_ len in
  String.substring (Z.to_nat from) (Z.to_nat (Z.max (to - from) 0)) s.

(** A string is truthy unless it is empty. *)
Definition truthy (s : string) : bool :=
  match s with EmptyString => false | _ => true end.

(** Decimal rendering of an integer, as in a template literal. *)
Definition ofZ (z : Z) : string := NilZero.string_of_int (Z.to_int z).

End JsString.

(** ** JavaScript numbers

    The numbers of the embedded code are integers or [NaN].  (Doubles are exact
    on integers of magnitude below 2^53; beyond that the runtime rounds, which
    the embedding does not.) *)

Inductive number : Type :=
  | NaN
  | Num (z : Z).

Module JsNumber.

Definition min (a b : number) : number :=
  match a, b with
  | Num x, Num y => Num (Z.min x y)
  | _, _ => NaN
  end.

Definition sub (a b : number) : number :=
  match a, b with
  | Num x, Num y => Num (x - y)
  | _, _ => NaN
  end.

(** Strict equality [===] on numbers: [NaN] equals nothing. *)
Definition strict_eq (a b : number) : bool :=
  match a, b with
  | Num x, Num y => x =? y
  | _, _ => false
  end.

(** Value of a digit in radices up to 36. *)
Definition digitValue (c : ascii) : option Z :=
  let n := Z.of_N (N_of_ascii c) in
  if (48 <=? n) && (n <=? 57) then Some (n - 48)
  else if (97 <=? n) && (n <=? 122) then Some (n - 87)
  else if (65 <=? n) && (n <=? 90) then Some (n - 55)
  else None.

(** Reads the longest prefix of radix-[R] digits; [acc] is [None] until a
    digit has been read. *)
Fixpoint parseDigits (R : Z) (s : string) (acc : option Z) : option Z :=
  match s with
  | EmptyString => acc
  | String c s' =>
      match digitValue c with
      | Some d =>
          if d <? R
          then parseDigits R s' (Some (default 0 acc * R + d))
          else acc
      | None => acc
      end
  end.

(** [parseInt(string)] with no radix argument. *)
Definition parseInt (input : string) : number :=
  let S0 := JsString.trimStart input in
  let '(sign, S1) :=
    match S0 with
    | String "-" r => (-1, r)
    | String "+" r => (1, r)
    | _ => (1, S0)
    end in
  let '(R, S2) :=
    match S1 with
    | String "0" (String "x" r) => (16, r)
    | String "0" (String "X" r) => (16, r)
    | _ => (10, S1)
    end in
  match parseDigits R S2 None with
  | None => NaN
  | Some m => Num (sign * m)
  end.

End JsNumber.

(** ** app/types/spaceflight.ts *)

Record SpaceflightArticle : Type := {
  id : Z;
  title : string;
  summary : string;
  image_url : string;
  news_site : string;
  published_at : string;
  url : string
}.

Record LoaderMeta : Type := {
  total : Z;
  hasMore : bool;
  loadedAt : string
}.

(** [error : string | null] is an [option]. *)
Record ArticlesLoaderData : Type := {
  articles : list SpaceflightArticle;
  error : option string;
  meta : LoaderMeta
}.

(** ** The host functions the sources call

    Date parsing and formatting, collation and URL parsing belong to the
    JavaScript runtime; the embedded code is parametric in them. *)

Record URL : Type := {
  protocol : string;
  hostname : string
}.

Class Runtime : Type := {
  (** [new Date(s).getTime()]: milliseconds since the epoch, [NaN] for an
      invalid date. *)
  Date_getTime : string -> number;
  (** [date.toLocaleDateString("en-US", {year: "numeric", month: "long",
      day: "numeric"})] of a valid date, given by its time value. *)
  toLocaleDateString : Z -> string;
  (** [a.localeCompare(b)]. *)
  localeCompare : string -> string -> Z;
  (** [a.localeCompare(b, "en", {sensitivity: "base"})]. *)
  localeCompare_en_base : string -> string -> Z;
  (** [new URL(s)]: [None] when the constructor throws. *)
  URL_new : string -> option URL
}.

(** ** Arrays held by reference

    An array value is a reference into a store; [sort] works in place, while
    spread and [filter] allocate. *)

Module JsArray.

Definition ref : Type := positive.

Abbreviation store A := (gmap positive (list A)).

(** Store-passing computations; [None] is a read through a reference that is
    not allocated. *)
Definition St (A B : Type) : Type := store A -> option (B * store A).

#[global] Instance St_ret {A : Type} : MRet (St A) :=
  fun B (b : B) h => Some (b, h).

#[global] Instance St_bind {A : Type} : MBind (St A) :=
  fun B C (k : B -> St A C) (m : St A B) h =>
    match m h with
    | Some (b, h') => k b h'
    | None => None
    end.

Definition read {A : Type} (r : ref) : St A (list A) :=
  fun h => match h !! r with
           | Some l => Some (l, h)
           | None => None
           end.

Definition write {A : Type} (r : ref) (l : list A) : St A unit :=
  fun h => Some (tt, <[r := l]> h).

Definition alloc {A : Type} (l : list A) : St A ref :=
  fun h => let r := fresh (dom h) in Some (r, <[r := l]> h).

(** [SortCompare] of ECMAScript, for defined elements: the comparator's
    result, with [NaN] taken as [+0]. *)
Definition SortCompare {A : Type} (comparefn : A -> A -> number) (x y : A) : Z :=
  match comparefn x y with
  | NaN => 0
  | Num v => v
  end.

(** Stable insertion of [x], which precedes the elements of [l] in the
    array: it passes exactly the elements that compare strictly before it. *)
Fixpoint insert_sorted {A : Type} (comparefn : A -> A -> number) (x : A) (l : list A) : list A :=
  match l with
  | [] => [x]
  | y :: l' =>
      if SortCompare comparefn y x <? 0
      then y :: insert_sorted comparefn x l'
      else x :: y :: l'
  end.

(** The order [Array.prototype.sort] leaves the elements in, as a stable
    insertion sort.  (For a comparator that is not consistent ECMAScript
    leaves the order to the implementation; this is the stable order a
    comparison sort reaches when it trusts every answer of [SortCompare].) *)
Fixpoint sorted_order {A : Type} (comparefn : A -> A -> number) (l : list A) : list A :=
  match l with
  | [] => []
  | x :: l' => insert_sorted comparefn x (sorted_order comparefn l')
  end.

(** [[...a]]: a fresh array with the elements of [a]. *)
Definition spread {A : Type} (a : ref) : St A ref :=
  l ← read a; alloc l.

(** [a.sort(comparefn)]: sorts [a] in place and returns [a] itself. *)
Definition sort {A : Type} (a : ref) (comparefn : A -> A -> number) : St A ref :=
  l ← read a;
  _ ← write a (sorted_order comparefn l);
  mret a.

(** [a.filter(p)]: a fresh array with the elements of [a] that satisfy [p],
    in their order. *)
Definition filter {A : Type} (a : ref) (p : A -> bool) : St A ref :=
  l ← read a; alloc (List.filter p l).

End JsArray.

(** ** Thrown values *)

Module Errors.

(** [class SpaceflightApiError extends Error]: a message, an optional status
    and an optional code. *)
Record SpaceflightApiError : Type := {
  message : string;
  status : option Z;
  code : option string
}.

(** What a [catch] clause can receive. *)
Inductive Thrown : Type :=
  | ThrownApiError (e : SpaceflightApiError)  (* instanceof SpaceflightApiError *)
  | ThrownError (name msg : string)           (* any other instanceof Error *)
  | ThrownOther.                              (* a value that is no Error *)

End Errors.

Abbreviation ThrownApiError := Errors.ThrownApiError.
Abbreviation ThrownError := Errors.ThrownError.
Abbreviation ThrownOther := Errors.ThrownOther.
Abbreviation SpaceflightApiError := Errors.SpaceflightApiError.
Abbreviation Thrown := Errors.Thrown.

(** ** The [fetch] call of the API client *)

Module Fetch.

Record Response : Type := {
  status : Z;
  statusText : string
}.

(** [response.ok]: the status is in the range 200-299. *)
Definition ok (r : Response) : bool := (200 <=? status r) && (status r <=? 299).

(** What the network does with the request. *)
Inductive Transport : Type :=
  | Delivers (r : Response)       (* a response arrives *)
  | Breaks (name msg : string).   (* the request fails with an [Error] *)

(** The transport settles [settles_at] milliseconds after the call. *)
Record Network : Type := {
  settles_at : Z;
  transport : Transport
}.

(** [await fetch(url, {signal: controller.signal})] while
    [setTimeout(() => controller.abort(), timeout)] is pending: the promise
    settles with the transport's outcome if that comes before the timer, and
    is rejected with an [AbortError] once the timer has aborted the request. *)
Definition await_fetch (timeout : Z) (net : Network) : Thrown + Response :=
  if settles_at net <? timeout
  then match transport net with
       | Delivers r => inr r
       | Breaks name msg => inl (ThrownError name msg)
       end
  else inl (ThrownError "AbortError" "This operation was aborted").

End Fetch.

(** ** app/services/spaceflight-api.ts *)

Module ApiClient.

Definition makeRequest (net : Fetch.Network) : Thrown + Fetch.Response :=
  let attempt : Thrown + Fetch.Response :=
    match Fetch.await_fetch 10000 net with (* 10 second timeout *)
    | inl e => inl e
    | inr response =>
        if negb (Fetch.ok response)
        then inl (ThrownApiError
                    {| Errors.message := "HTTP error! status: "
                                  +:+ JsString.ofZ (Fetch.status response);
                       Errors.status := Some (Fetch.status response);
                       Errors.code := Some (Fetch.statusText response) |})
        else inr response
    end in
  match attempt with
  | inr response => inr response
  | inl error =>
      match error with
      | ThrownApiError _ => inl error
      | ThrownError name msg =>
          if String.eqb name "AbortError"
          then inl (ThrownApiError
                      {| Errors.message := "Request timeout";
                         Errors.status := Some 408;
                         Errors.code := Some "TIMEOUT" |})
          else inl (ThrownApiError
                      {| Errors.message := "Network error: " +:+ msg;
                         Errors.status := Some 0;
                         Errors.code := Some "NETWORK_ERROR" |})
      | ThrownOther =>
          inl (ThrownApiError
                 {| Errors.message := "Unknown error occurred";
                    Errors.status := Some 0;
                    Errors.code := Some "UNKNOWN_ERROR" |})
      end
  end.

End ApiClient.

(** ** The index route: [loader] *)

Module IndexRoute.

(** The inbound request, by the decoded query pairs of its URL. *)
Record Request : Type := {
  searchParams : list (string * string)
}.

(** [url.searchParams.get(name)]: the first value given for [name]. *)
Fixpoint searchParams_get (params : list (string * string)) (name : string) : option string :=
  match params with
  | [] => None
  | (k, v) :: rest => if String.eqb k name then Some v else searchParams_get rest name
  end.

(** The outbound response; [body] stands for its JSON text. *)
Record Response : Type := {
  status : Z;
  headers : gmap string string;
  body : ArticlesLoaderData
}.

(** Computations that call the API client: the state is the list of limits
    [fetchLatestArticles] was called with, and a computation may throw. *)
Definition Eff (A : Type) : Type := list number -> (Thrown + A) * list number.

#[global] Instance Eff_ret : MRet Eff :=
  fun A (a : A) calls => (inr a, calls).

#[global] Instance Eff_bind : MBind Eff :=
  fun A B (k : A -> Eff B) (m : Eff A) calls =>
    match m calls with
    | (inr a, calls') => k a calls'
    | (inl e, calls') => (inl e, calls')
    end.

Definition try_catch {A : Type} (m : Eff A) (handler : Thrown -> Eff A) : Eff A :=
  fun calls =>
    match m calls with
    | (inr a, calls') => (inr a, calls')
    | (inl e, calls') => handler e calls'
    end.

Section Loader.

(** What [fetchLatestArticles(limit)] settles with. *)
Variable fetchLatestArticles : number -> Thrown + list SpaceflightArticle.

(** [new Date().toISOString()] at the time of the call. *)
Variable now_iso : string.

Definition await_fetchLatestArticles (limit : number) : Eff (list SpaceflightArticle) :=
  fun calls => (fetchLatestArticles limit, (calls ++ [limit])%list).

(** [url.searchParams.get("limit") || "20"], then [parseInt] and
    [Math.min(.., 50)]. *)
Definition resolve_limit (request : Request) : number :=
  let param :=
    match searchParams_get (searchParams request) "limit" with
    | Some s => if JsString.truthy s then s else "20"
    | None => "20"
    end in
  JsNumber.min (JsNumber.parseInt param) (Num 50).

Definition loader (request : Request) : Eff Response :=
  let limit := resolve_limit request in
  let loadedAt := now_iso in
  try_catch
    (articles ← await_fetchLatestArticles limit;
     let loaderData :=
       {| articles := articles;
          error := None;
          meta := {| total := Z.of_nat (length articles);
                     hasMore := JsNumber.strict_eq (Num (Z.of_nat (length articles))) limit;
                     loadedAt := loadedAt |} |} in
     mret {| status := 200;
             headers := {[ "Content-Type" := "application/json";
                           "Cache-Control" := "public, max-age=300, stale-while-revalidate=600" ]};
             body := loaderData |})
    (fun error =>
       let '(errorMessage, statusCode, retryAfter) :=
         match error with
         | ThrownApiError e =>
             (Errors.message e,
              match Errors.status e with
              | Some s => if s =? 0 then 500 else s
              | None => 500
              end,
              if bool_decide (Errors.status e = Some 429)
                 || bool_decide (Errors.status e = Some 503)
              then Some 60 else None)
         | ThrownError _ msg => (msg, 500, None)
         | ThrownOther => ("Failed to load articles", 500, None)
         end in
       let fallbackData :=
         {| articles := [];
            error := Some errorMessage;
            meta := {| total := 0; hasMore := false; loadedAt := loadedAt |} |} in
       let headers0 : gmap string string :=
         {[ "Cache-Control" := "no-cache, no-store, must-revalidate" ]} in
       let headers1 :=
         match retryAfter with
         | Some n => if n =? 0 then headers0
                     else <[ "Retry-After" := JsString.ofZ n ]> headers0
         | None => headers0
         end in
       mret {| status := if 500 <=? statusCode then 500 else 200;
               headers := headers1 ∪ {[ "Content-Type" := "application/json" ]};
               body := fallbackData |}).

End Loader.

End IndexRoute.

(** ** app/utils/article-utils.ts *)

Module ArticleUtils.

Section WithRuntime.

Context `{Runtime}.

Definition formatPublishedDate (dateString : string) : string :=
  match Date_getTime dateString with
  | NaN => "Unknown date"
  | Num t => toLocaleDateString t
  end.

(** [now] is the time value of [new Date()] at the call. *)
Definition formatRelativeTime (now : Z) (dateString : string) : string :=
  match Date_getTime dateString with
  | NaN => "Unknown date"
  | Num t =>
      let diffInMs := now - t in
      let diffInDays := diffInMs / (1000 * 60 * 60 * 24) in
      if diffInDays =? 0 then
        let diffInHours := diffInMs / (1000 * 60 * 60) in
        if diffInHours =? 0 then
          let diffInMinutes := diffInMs / (1000 * 60) in
          if diffInMinutes <=? 1 then "Just now"
          else JsString.ofZ diffInMinutes +:+ " minutes ago"
        else if diffInHours =? 1 then "1 hour ago"
        else JsString.ofZ diffInHours +:+ " hours ago"
      else if diffInDays =? 1 then "Yesterday"
      else if diffInDays <? 7 then JsString.ofZ diffInDays +:+ " days ago"
      else if diffInDays <? 30 then
        let weeks := diffInDays / 7 in
        if weeks =? 1 then "1 week ago"
        else JsString.ofZ weeks +:+ " weeks ago"
      else formatPublishedDate dateString
  end.

Definition truncateText (text : string) (maxLength : Z) : string :=
  if Z.of_nat (String.length text) <=? maxLength then text
  else JsString.trim (JsString.slice text 0 maxLength) +:+ "...".

Definition filterArticlesBySearch (articles : JsArray.ref) (searchTerm : string)
  : JsArray.St SpaceflightArticle JsArray.ref :=
  if negb (JsString.truthy (JsString.trim searchTerm)) then mret articles
  else
    let normalizedSearch := JsString.trim (JsString.toLowerCase searchTerm) in
    JsArray.filter articles (fun article =>
      let titleMatch :=
        JsString.includes (JsString.toLowerCase (title article)) normalizedSearch in
      let summaryMatch :=
        JsString.includes (JsString.toLowerCase (summary article)) normalizedSearch in
      let sourceMatch :=
        JsString.includes (JsString.toLowerCase (news_site article)) normalizedSearch in
      titleMatch || summaryMatch || sourceMatch).

(** The comparator of the ["date"] case. *)
Definition compareByDate (a b : SpaceflightArticle) : number :=
  let dateA := Date_getTime (published_at a) in
  let dateB := Date_getTime (published_at b) in
  JsNumber.sub dateB dateA. (* Newest first *)

Definition sortArticles (articles : JsArray.ref) (sortBy : string)
  : JsArray.St SpaceflightArticle JsArray.ref :=
  sortedArticles ← JsArray.spread articles;
  if String.eqb sortBy "title" then
    JsArray.sort sortedArticles
      (fun a b => Num (localeCompare_en_base (title a) (title b)))
  else if String.eqb sortBy "date" then
    JsArray.sort sortedArticles compareByDate
  else mret sortedArticles.

Definition processArticles (articles : JsArray.ref) (searchTerm sortBy : string)
  : JsArray.St SpaceflightArticle JsArray.ref :=
  filtered ← filterArticlesBySearch articles searchTerm;
  sortArticles filtered sortBy.

Definition isValidImageUrl (url : string) : bool :=
  match URL_new url with
  | Some parsedUrl =>
      String.eqb (protocol parsedUrl) "http:" || String.eqb (protocol parsedUrl) "https:"
  | None => false
  end.

Definition getImageUrlWithFallback (imageUrl : string) : string :=
  if isValidImageUrl imageUrl then imageUrl
  else "/placeholder-space-image.jpg".

Definition extractDomain (url : string) : string :=
  match URL_new url with
  | Some parsedUrl => JsString.replace (hostname parsedUrl) "www." ""
  | None => "Unknown source"
  end.

End WithRuntime.

End ArticleUtils.

(** ** app/utils/index.ts *)

Module Utils.

Section WithRuntime.

Context `{Runtime}.

Definition filterArticlesBySearch (articles : JsArray.ref) (searchTerm : string)
  : JsArray.St SpaceflightArticle JsArray.ref :=
  if negb (JsString.truthy (JsString.trim searchTerm)) then mret articles
  else
    let lowercaseSearch := JsString.toLowerCase (JsString.trim searchTerm) in
    JsArray.filter articles (fun article =>
      JsString.includes (JsString.toLowerCase (title article)) lowercaseSearch).

Definition compareByDate (a b : SpaceflightArticle) : number :=
  JsNumber.sub (Date_getTime (published_at b)) (Date_getTime (published_at a)).

Definition sortArticles (articles : JsArray.ref) (sortBy : string)
  : JsArray.St SpaceflightArticle JsArray.ref :=
  sortedArticles ← JsArray.spread articles;
  if String.eqb sortBy "title" then
    JsArray.sort sortedArticles
      (fun a b => Num (localeCompare (title a) (title b)))
  else if String.eqb sortBy "date" then
    JsArray.sort sortedArticles compareByDate
  else mret sortedArticles.

Definition truncateText (text : string) (maxLength : Z) : string :=
  if Z.of_nat (String.length text) <=? maxLength then text
  else JsString.trim (JsString.slice text 0 maxLength) +:+ "...".

Definition isValidImageUrl (url : string) : bool :=
  match URL_new url with
  | Some parsedUrl =>
      String.eqb (protocol parsedUrl) "http:" || String.eqb (protocol parsedUrl) "https:"
  | None => false
  end.

End WithRuntime.

End Utils.

(** ** JSON values and query strings *)

Module Json.

(** What [response.json()] can produce.  Numbers are kept as integers, as
    the API sends them; the validators below only look at the type of a
    number. *)
#[warnings="-register-all"]
Inductive value : Type :=
  | JNull
  | JBool (b : bool)
  | JNumber (z : Z)
  | JString (s : string)
  | JArray (items : list value)
  | JObject (fields : list (string * value)).

(** The value of a key among the members of an object, in the order of the
    text: a later member with the same key wins, as in [JSON.parse]. *)
Fixpoint field (fields : list (string * value)) (key : string) : option value :=
  match fields with
  | [] => None
  | (k, v) :: rest =>
      match field rest key with
      | Some later => Some later
      | None => if String.eqb k key then Some v else None
      end
  end.

(** [x.key] for the keys the sources read: [None] is [undefined].  (None of
    these keys is a property of arrays or of [Object.prototype].) *)
Definition prop (x : value) (key : string) : option value :=
  match x with
  | JObject fields => field fields key
  | _ => None
  end.

(** [typeof v === "number"] and [typeof v === "string"], for a property
    that may be [undefined]. *)
Definition is_number (v : option value) : bool :=
  match v with Some (JNumber _) => true | _ => false end.

Definition is_string (v : option value) : bool :=
  match v with Some (JString _) => true | _ => false end.

(** [v === null]. *)
Definition is_null (v : option value) : bool :=
  match v with Some JNull => true | _ => false end.

(** [!x || typeof x !== "object"] fails: [x] is an object or an array. *)
Definition is_object (x : value) : bool :=
  match x with JObject _ | JArray _ => true | _ => false end.

End Json.

Module QueryString.

(** [n.toString()]. *)
Definition toString (n : number) : string :=
  match n with
  | NaN => "NaN"
  | Num z => JsString.ofZ z
  end.

Definition hexDigit (n : N) : ascii :=
  if (n <? 10)%N then ascii_of_N (48 + n) else ascii_of_N (55 + n).

Definition percent (byte : N) : string :=
  String "%" (String (hexDigit (byte / 16)) (String (hexDigit (byte mod 16)) "")).

(** The application/x-www-form-urlencoded serializer on one code unit: the
    unreserved bytes stay, a space becomes [+], every other byte of the
    UTF-8 encoding is percent-encoded. *)
Definition encodeUnit (c : ascii) : string :=
  let n := N_of_ascii c in
  if (n =? 42)%N || (n =? 45)%N || (n =? 46)%N || (n =? 95)%N
     || ((48 <=? n)%N && (n <=? 57)%N)
     || ((65 <=? n)%N && (n <=? 90)%N)
     || ((97 <=? n)%N && (n <=? 122)%N)
  then String c ""
  else if (n =? 32)%N then "+"
  else if (n <? 128)%N then percent n
  else percent (192 + n / 64) +:+ percent (128 + n mod 64).

Fixpoint encode (s : string) : string :=
  match s with
  | EmptyString => EmptyString
  | String c s' => encodeUnit c +:+ encode s'
  end.

(** [`${new URLSearchParams({...})}`]: the pairs, encoded and joined. *)
Fixpoint serialize (params : list (string * string)) : string :=
  match params with
  | [] => ""
  | [(k, v)] => encode k +:+ "=" +:+ encode v
  | (k, v) :: rest => encode k +:+ "=" +:+ encode v +:+ "&" +:+ serialize rest
  end.

End QueryString.

(** ** app/services/spaceflight-api.ts, continued *)

Module SpaceflightApi.

Definition BASE_URL : string := "https://api.spaceflightnewsapi.net/v4".

Definition ARTICLES_ENDPOINT : string := "/articles/".

(** [interface SpaceflightApiResponse]. *)
Record SpaceflightApiResponse : Type := {
  count : Z;
  next : option string;
  previous : option string;
  results : list SpaceflightArticle
}.

Definition validateArticle (article : Json.value) : bool :=
  if negb (Json.is_object article) then false
  else
    let art := article in
    Json.is_number (Json.prop art "id")
    && Json.is_string (Json.prop art "title")
    && Json.is_string (Json.prop art "summary")
    && Json.is_string (Json.prop art "image_url")
    && Json.is_string (Json.prop art "news_site")
    && Json.is_string (Json.prop art "published_at")
    && Json.is_string (Json.prop art "url").

Definition validateApiResponse (data : Json.value) : bool :=
  if negb (Json.is_object data) then false
  else
    let response := data in
    Json.is_number (Json.prop response "count")
    && (Json.is_null (Json.prop response "next")
        || Json.is_string (Json.prop response "next"))
    && (Json.is_null (Json.prop response "previous")
        || Json.is_string (Json.prop response "previous"))
    && match Json.prop response "results" with
       | Some (Json.JArray items) => forallb validateArticle items
       | _ => false
       end.

(** A validated value read at its declared type ([data is
    SpaceflightArticle]).  The defaults stand for properties that validation
    has excluded. *)
Definition number_of (v : option Json.value) : Z :=
  match v with Some (Json.JNumber z) => z | _ => 0 end.

Definition string_of (v : option Json.value) : string :=
  match v with Some (Json.JString s) => s | _ => "" end.

Definition nullable_string_of (v : option Json.value) : option string :=
  match v with Some (Json.JString s) => Some s | _ => None end.

Definition asArticle (article : Json.value) : SpaceflightArticle :=
  {| id := number_of (Json.prop article "id");
     title := string_of (Json.prop article "title");
     summary := string_of (Json.prop article "summary");
     image_url := string_of (Json.prop article "image_url");
     news_site := string_of (Json.prop article "news_site");
     published_at := string_of (Json.prop article "published_at");
     url := string_of (Json.prop article "url") |}.

Definition asApiResponse (data : Json.value) : SpaceflightApiResponse :=
  {| count := number_of (Json.prop data "count");
     next := nullable_string_of (Json.prop data "next");
     previous := nullable_string_of (Json.prop data "previous");
     results :=
       match Json.prop data "results" with
       | Some (Json.JArray items) => List.map asArticle items
       | _ => []
       end |}.

(** What the remote end does with a request: the transport, and what
    [response.json()] settles with should a response arrive. *)
Record Exchange : Type := {
  network : Fetch.Network;
  json : Thrown + Json.value
}.

(** Computations that make requests: the state is the list of URLs
    requested so far, and a computation may throw. *)
Definition Api (A : Type) : Type := list string -> (Thrown + A) * list string.

#[global] Instance Api_ret : MRet Api :=
  fun A (a : A) urls => (inr a, urls).

#[global] Instance Api_bind : MBind Api :=
  fun A B (k : A -> Api B) (m : Api A) urls =>
    match m urls with
    | (inr a, urls') => k a urls'
    | (inl e, urls') => (inl e, urls')
    end.

Definition throw {A : Type} (e : Thrown) : Api A :=
  fun urls => (inl e, urls).

Definition try_catch {A : Type} (m : Api A) (handler : Thrown -> Api A) : Api A :=
  fun urls =>
    match m urls with
    | (inr a, urls') => (inr a, urls')
    | (inl e, urls') => handler e urls'
    end.

Section Client.

(** The remote end, by URL. *)
Variable remote : string -> Exchange.

Definition await_makeRequest (url : string) : Api Fetch.Response :=
  fun urls => (ApiClient.makeRequest (network (remote url)), (urls ++ [url])%list).

Definition await_json (url : string) : Api Json.value :=
  fun urls => (json (remote url), urls).

Definition articlesUrl (limit offset : number) (ordering : string) : string :=
  let params :=
    QueryString.serialize
      [("limit", QueryString.toString limit);
       ("offset", QueryString.toString offset);
       ("ordering", ordering)] in
  BASE_URL +:+ ARTICLES_ENDPOINT +:+ "?" +:+ params.

Definition fetchArticles (limit offset : number) (ordering : string)
  : Api SpaceflightApiResponse :=
  let url := articlesUrl limit offset ordering in
  try_catch
    (response ← await_makeRequest url;
     data ← await_json url;
     if negb (validateApiResponse data) then
       throw (ThrownApiError
                {| Errors.message := "Invalid response format from API";
                   Errors.status := Some (Fetch.status response);
                   Errors.code := Some "INVALID_RESPONSE" |})
     else mret (asApiResponse data))
    (fun error =>
       match error with
       | ThrownApiError _ => throw error
       | _ => throw (ThrownApiError
                       {| Errors.message := "Failed to fetch articles";
                          Errors.status := Some 0;
                          Errors.code := Some "FETCH_ERROR" |})
       end).

Definition articleUrl (id : number) : string :=
  BASE_URL +:+ ARTICLES_ENDPOINT +:+ QueryString.toString id +:+ "/".

Definition fetchArticleById (id : number) : Api SpaceflightArticle :=
  let url := articleUrl id in
  try_catch
    (response ← await_makeRequest url;
     data ← await_json url;
     if negb (validateArticle data) then
       throw (ThrownApiError
                {| Errors.message := "Invalid article format from API";
                   Errors.status := Some (Fetch.status response);
                   Errors.code := Some "INVALID_ARTICLE" |})
     else mret (asArticle data))
    (fun error =>
       match error with
       | ThrownApiError _ => throw error
       | _ => throw (ThrownApiError
                       {| Errors.message :=
                            "Failed to fetch article " +:+ QueryString.toString id;
                          Errors.status := Some 0;
                          Errors.code := Some "FETCH_ERROR" |})
       end).

Definition fetchLatestArticles (limit : number) : Api (list SpaceflightArticle) :=
  response ← fetchArticles limit (Num 0) "-published_at";
  mret (results response).

(** The loader of the index route on top of this client. *)
Definition loader (now_iso : string) (request : IndexRoute.Request)
  : IndexRoute.Eff IndexRoute.Response :=
  IndexRoute.loader (fun limit => fst (fetchLatestArticles limit [])) now_iso request.

End Client.

End SpaceflightApi.

(** ** app/utils/index.ts, continued *)

Module UtilsIndex.

Section WithRuntime.

Context `{Runtime}.

Definition placeholder : string :=
  "data:image/svg+xml,%3Csvg xmlns='http://www.w3.org/2000/svg' width='400' height='225' viewBox='0 0 400 225'%3E%3Crect width='400' height='225' fill='%23f3f4f6'/%3E%3Ctext x='200' y='112.5' text-anchor='middle' fill='%236b7280' font-family='Arial, sans-serif' font-size='14'%3ESpace News Image%3C/text%3E%3C/svg%3E".

Definition getImageUrlWithFallback (imageUrl : string) : string :=
  if Utils.isValidImageUrl imageUrl then imageUrl
  else placeholder.

End WithRuntime.

End UtilsIndex.

(** ** app/utils/index.ts: [debounce]

    The timers of the runtime are explicit: [setTimeout] adds a pending
    timer, [clearTimeout] removes one, and letting time pass fires the
    timers that fall due.  The wrapped [func] is opaque; its calls are
    recorded.  (It is taken not to call the debounced function itself, and
    [wait] to be at least 1, below which runtimes clamp the delay.) *)

Module Debounce.

Section WithArgs.

(** The argument list of one call. *)
Context {Args : Type}.

Record state : Type := {
  clock : Z;                           (* the current time, in ms *)
  next_id : positive;                  (* the handle the next [setTimeout] returns *)
  pending : gmap positive (Z * Args);  (* pending timers: due time, and the
                                          arguments of [func(...args)] *)
  invoked : list (Z * Args);           (* the calls of [func], with their times *)
  timeout : option positive            (* [let timeout], the closure's variable *)
}.

(** [debounce(func, wait)] at time [now]: nothing is scheduled and [timeout]
    is undefined. *)
Definition debounce (now : Z) (first_id : positive) : state :=
  {| clock := now; next_id := first_id; pending := ∅; invoked := [];
     timeout := None |}.

Definition clearTimeout (handle : option positive) (s : state) : state :=
  match handle with
  | Some id =>
      {| clock := clock s; next_id := next_id s;
         pending := delete id (pending s);
         invoked := invoked s; timeout := timeout s |}
  | None => s
  end.

Definition setTimeout (delay : Z) (args : Args) (s : state) : positive * state :=
  (next_id s,
   {| clock := clock s; next_id := Pos.succ (next_id s);
      pending := <[next_id s := (clock s + delay, args)]> (pending s);
      invoked := invoked s; timeout := timeout s |}).

(** One call of the debounced function:
    [clearTimeout(timeout); timeout = setTimeout(() => func(...args), wait)]. *)
Definition debounced (wait : Z) (args : Args) (s : state) : state :=
  let s1 := clearTimeout (timeout s) s in
  let '(id, s2) := setTimeout wait args s1 in
  {| clock := clock s2; next_id := next_id s2; pending := pending s2;
     invoked := invoked s2; timeout := Some id |}.

(** The order in which due timers fire: by due time, then by handle. *)
Definition earlier (x y : positive * (Z * Args)) : Prop :=
  x.2.1 < y.2.1 \/ (x.2.1 = y.2.1 /\ (x.1 <= y.1)%positive).

#[global] Instance earlier_dec : RelDecision earlier.
Proof. intros x y. unfold earlier. apply _. Defined.

Definition due_by (target : Z) (timer : positive * (Z * Args)) : bool :=
  timer.2.1 <=? target.

(** [dt] milliseconds pass: the timers due by then fire in order, each
    calling [func] with its arguments at its due time, and are gone. *)
Definition advance (dt : Z) (s : state) : state :=
  let target := clock s + dt in
  let ready :=
    merge_sort earlier (List.filter (due_by target) (map_to_list (pending s))) in
  {| clock := target; next_id := next_id s;
     pending := filter (fun timer => target < timer.2.1) (pending s);
     invoked := (invoked s ++ List.map snd ready)%list;
     timeout := timeout s |}.

(** The states a debounced function goes through. *)
Inductive reachable (wait : Z) : state -> Prop :=
  | reach_debounce now first_id : reachable wait (debounce now first_id)
  | reach_call s args : reachable wait s -> reachable wait (debounced wait args s)
  | reach_advance s dt : 0 <= dt -> reachable wait s -> reachable wait (advance dt s).

(** At most one timer is pending, and [timeout] holds its handle. *)
Definition at_most_one_pending (s : state) : Prop :=
  pending s = ∅
  \/ exists id due args, timeout s = Some id /\ pending s = {[id := (due, args)]}.

(** A burst: a first call, then further calls, each [dt] ms after the one
    before. *)
Definition burst (wait : Z) (first : Args) (rest : list (Z * Args)) (s : state) : state :=
  fold_left (fun st next => debounced wait next.2 (advance next.1 st))
    rest (debounced wait first s).



End WithArgs.

Arguments state : clear implicits.

End Debounce.

(** ** app/utils/accessibility-utils.ts: [hexToRgb] *)

Module AccessibilityUtils.

Record RGB : Type := {
  r : number;
  g : number;
  b : number
}.

(** [[a-f\d]] under the [i] flag. *)
Definition isHexDigit (c : ascii) : bool :=
  let n := N_of_ascii c in
  ((48 <=? n)%N && (n <=? 57)%N)
  || ((97 <=? n)%N && (n <=? 102)%N)
  || ((65 <=? n)%N && (n <=? 70)%N).

(** [parseInt(string, 16)]: as [parseInt], in radix 16 throughout; a
    leading [0x] is still skipped. *)
Definition parseInt16 (input : string) : number :=
  let S0 := JsString.trimStart input in
  let '(sign, S1) :=
    match S0 with
    | String "-" rest => (-1, rest)
    | String "+" rest => (1, rest)
    | _ => (1, S0)
    end in
  let S2 :=
    match S1 with
    | String "0" (String "x" rest) => rest
    | String "0" (String "X" rest) => rest
    | _ => S1
    end in
  match JsNumber.parseDigits 16 S2 None with
  | None => NaN
  | Some m => Num (sign * m)
  end.

Definition pair_of (c1 c2 : ascii) : string := String c1 (String c2 EmptyString).

(** [/^#?([a-f\d]{2})([a-f\d]{2})([a-f\d]{2})$/i.exec(hex)], and the three
    groups parsed: an optional [#], then exactly six hex digits. *)
Definition hexToRgb (hex : string) : option RGB :=
  let digits :=
    match hex with
    | String c rest => if Ascii.eqb c "#" then rest else hex
    | EmptyString => hex
    end in
  match list_ascii_of_string digits with
  | [c1; c2; c3; c4; c5; c6] =>
      if forallb isHexDigit [c1; c2; c3; c4; c5; c6]
      then Some {| r := parseInt16 (pair_of c1 c2);
                   g := parseInt16 (pair_of c3 c4);
                   b := parseInt16 (pair_of c5 c6) |}
      else None
  | _ => None
  end.


End AccessibilityUtils.

(** The 256 code units, and two checks over all pairs of them that the
    properties of [hexToRgb] rest on. *)

Module CodeUnits.

Definition all : list ascii := List.map ascii_of_nat (seq 0 256).


Definition same_number (a b : number) : bool :=
  match a, b with
  | Num x, Num y => x =? y
  | NaN, NaN => true
  | _, _ => false
  end.

Definition lower_ok (c1 c2 : ascii) : bool :=
  implb (AccessibilityUtils.isHexDigit c1 && AccessibilityUtils.isHexDigit c2)
    (same_number
       (AccessibilityUtils.parseInt16
          (AccessibilityUtils.pair_of (JsString.toLowerChar c1) (JsString.toLowerChar c2)))
       (AccessibilityUtils.parseInt16 (AccessibilityUtils.pair_of c1 c2))).

End CodeUnits.

(** ** The index route: what the page lists *)

Module IndexPage.

Section WithRuntime.

Context `{Runtime}.

(** The [useMemo] of the page: the loaded articles, searched and then
    sorted, with the functions of app/utils/index.ts. *)
Definition filteredAndSortedArticles
    (articles : JsArray.ref) (searchTerm sortBy : string)
  : JsArray.St SpaceflightArticle JsArray.ref :=
  filtered ← Utils.filterArticlesBySearch articles searchTerm;
  Utils.sortArticles filtered sortBy.

End WithRuntime.

End IndexPage.

(** ** A runtime to evaluate examples with

    An instance of [Runtime] for the UTC time zone: timestamps of the form
    [YYYY-MM-DDTHH:MM:SSZ] are dates and every other string is an invalid
    date; dates print in the long en-US form; strings collate by code unit
    (after lower-casing, for base sensitivity); URLs are [http://] or
    [https://] followed by a host.  The theorems below hold for every
    runtime; this one serves their examples. *)

Module ReferenceRuntime.

Definition digit (c : ascii) : option Z :=
  let n := Z.of_N (N_of_ascii c) in
  if (48 <=? n) && (n <=? 57) then Some (n - 48) else None.

Definition digits2 (a b : ascii) : option Z :=
  x ← digit a; y ← digit b; Some (10 * x + y).

Definition isLeapYear (y : Z) : bool :=
  ((y mod 4 =? 0) && negb (y mod 100 =? 0)) || (y mod 400 =? 0).

Definition daysInMonth (y m : Z) : Z :=
  if m =? 2 then (if isLeapYear y then 29 else 28)
  else if (m =? 4) || (m =? 6) || (m =? 9) || (m =? 11) then 30
  else 31.

(** Days from 1970-01-01 to the given day of the proleptic Gregorian
    calendar. *)
Definition daysFromCivil (y m d : Z) : Z :=
  let y' := if m <=? 2 then y - 1 else y in
  let era := y' / 400 in
  let yoe := y' - era * 400 in
  let mp := (m + 9) mod 12 in
  let doy := (153 * mp + 2) / 5 + d - 1 in
  let doe := yoe * 365 + yoe / 4 - yoe / 100 + doy in
  era * 146097 + doe - 719468.

(** Year, month and day of the day [days] after 1970-01-01. *)
Definition civilFromDays (days : Z) : Z * Z * Z :=
  let z := days + 719468 in
  let era := z / 146097 in
  let doe := z - era * 146097 in
  let yoe := (doe - doe / 1460 + doe / 36524 - doe / 146096) / 365 in
  let doy := doe - (365 * yoe + yoe / 4 - yoe / 100) in
  let mp := (5 * doy + 2) / 153 in
  let d := doy - (153 * mp + 2) / 5 + 1 in
  let m := if mp <? 10 then mp + 3 else mp - 9 in
  let y := yoe + era * 400 in
  (if m <=? 2 then y + 1 else y, m, d).

Definition parseIsoUtc (s : string) : number :=
  match list_ascii_of_string s with
  | [y1; y2; y3; y4; "-"; m1; m2; "-"; d1; d2; "T";
     h1; h2; ":"; n1; n2; ":"; s1; s2; "Z"]%char =>
      match digits2 y1 y2, digits2 y3 y4, digits2 m1 m2, digits2 d1 d2,
            digits2 h1 h2, digits2 n1 n2, digits2 s1 s2 with
      | Some yh, Some yl, Some mo, Some dd, Some hh, Some mi, Some ss =>
          let y := 100 * yh + yl in
          if (1 <=? mo) && (mo <=? 12) && (1 <=? dd) && (dd <=? daysInMonth y mo)
             && (hh <=? 23) && (mi <=? 59) && (ss <=? 59)
          then Num ((((daysFromCivil y mo dd * 24 + hh) * 60 + mi) * 60 + ss) * 1000)
          else NaN
      | _, _, _, _, _, _, _ => NaN
      end
  | _ => NaN
  end.

Definition monthName (m : Z) : string :=
  nth (Z.to_nat (m - 1))
    ["January"; "February"; "March"; "April"; "May"; "June"; "July";
     "August"; "September"; "October"; "November"; "December"] "".

Definition longDateUtc (t : Z) : string :=
  let '(y, m, d) := civilFromDays (t / 86400000) in
  monthName m +:+ " " +:+ JsString.ofZ d +:+ ", " +:+ JsString.ofZ y.

Definition compareCodeUnits (a b : string) : Z :=
  match String.compare a b with
  | Lt => -1
  | Eq => 0
  | Gt => 1
  end.

Fixpoint hostPrefix (s : string) : string :=
  match s with
  | EmptyString => EmptyString
  | String c s' =>
      if (Ascii.eqb c "/" || Ascii.eqb c ":" || Ascii.eqb c "?" || Ascii.eqb c "#")%char
      then EmptyString
      else String c (hostPrefix s')
  end.

Definition parseHttpUrl (s : string) : option URL :=
  let with_scheme (scheme rest : string) : option URL :=
    match hostPrefix rest with
    | EmptyString => None
    | host => Some {| protocol := scheme; hostname := JsString.toLowerCase host |}
    end in
  if String.prefix "https://" s then with_scheme "https:" (JsString.drop 8 s)
  else if String.prefix "http://" s then with_scheme "http:" (JsString.drop 7 s)
  else None.

Definition runtime : Runtime := {|
  Date_getTime := parseIsoUtc;
  toLocaleDateString := longDateUtc;
  localeCompare := compareCodeUnits;
  localeCompare_en_base := fun a b =>
    compareCodeUnits (JsString.toLowerCase a) (JsString.toLowerCase b);
  URL_new := parseHttpUrl
|}.

End ReferenceRuntime.

(** ** The vocabulary of the properties *)

Module Ordering.

Section WithRuntime.

Context `{Runtime}.

(** The parsed [published_at] timestamp of an article. *)
Definition timestamp (a : SpaceflightArticle) : number :=
  Date_getTime (published_at a).

Definition parses (a : SpaceflightArticle) : Prop :=
  timestamp a <> NaN.

(** The time value of an article whose timestamp parses. *)
Definition key (a : SpaceflightArticle) : Z :=
  match timestamp a with
  | Num t => t
  | NaN => 0
  end.

(** The article's timestamp parses to the time value [t]. *)
Definition published_at_time (t : Z) (a : SpaceflightArticle) : bool :=
  JsNumber.strict_eq (timestamp a) (Num t).

(** [a] may stand before [b] in a newest-first list in which an article
    whose timestamp does not parse counts as the oldest. *)
Definition newest_first (a b : SpaceflightArticle) : Prop :=
  match timestamp a, timestamp b with
  | Num x, Num y => y <= x
  | _, NaN => True
  | NaN, Num _ => False
  end.

End WithRuntime.

End Ordering.

Module Searching.

(** Run from the store [h], the computation returns an array whose contents
    are a sublist of the contents of the array [articles], which still holds
    them afterwards. *)
Definition returns_sublist
    (run : JsArray.St SpaceflightArticle JsArray.ref)
    (h : JsArray.store SpaceflightArticle) (articles : JsArray.ref) : Prop :=
  exists result h' l l',
    run h = Some (result, h')
    /\ h !! articles = Some l
    /\ h' !! articles = Some l
    /\ h' !! result = Some l'
    /\ sublist l' l.

End Searching.

Module Sorting.

(** Run from the store [h], in which the array [articles] holds [l], the
    computation returns an array other than [articles]; it holds a
    permutation of [l] that satisfies [ordered]; and every array that was
    in the store, [articles] among them, holds what it held. *)
Definition sorts_copy
    (run : JsArray.St SpaceflightArticle JsArray.ref)
    (h : JsArray.store SpaceflightArticle) (articles : JsArray.ref)
    (l : list SpaceflightArticle)
    (ordered : list SpaceflightArticle -> Prop) : Prop :=
  exists result h' l',
    run h = Some (result, h')
    /\ result <> articles
    /\ h' !! articles = Some l
    /\ (forall r, r <> result -> h' !! r = h !! r)
    /\ h' !! result = Some l'
    /\ l' ≡ₚ l
    /\ ordered l'.

(** The order promised of the result [l'] of sorting [l] by [sortBy]: for
    the criterion ["date"] and timestamps that all parse, newest first. *)
Definition newest_first_if_parsed `{Runtime}
    (sortBy : string) (l l' : list SpaceflightArticle) : Prop :=
  sortBy = "date" ->
  Forall Ordering.parses l ->
  StronglySorted Ordering.newest_first l'.

End Sorting.

(** ** The specification's wording of two utilities

    These two definitions follow the words of the specification, not the
    sources; the properties compare the sources with them. *)

Module Claimed.

(** "returns text unchanged if its length is <= maxLength; otherwise returns
    the first maxLength characters, right-trimmed, with an ellipsis
    appended". *)
Definition truncateText (text : string) (maxLength : Z) : string :=
  if Z.of_nat (String.length text) <=? maxLength then text
  else JsString.trimEnd (String.substring 0 (Z.to_nat maxLength) text) +:+ "...".

(** "<1 minute: Just now; <1 hour: N minutes ago; <1 day: N hour(s) ago
    (singular at exactly 1); exactly 1 day: Yesterday; 2-6 days: N days ago;
    7-29 days: N week(s) ago (singular at exactly 1 week); >=30 days: the
    absolute date format; unparseable input: the sentinel". *)
Definition formatRelativeTime `{Runtime} (now : Z) (dateString : string) : string :=
  match Date_getTime dateString with
  | NaN => "Unknown date"
  | Num t =>
      let elapsed := now - t in
      let days := elapsed / 86400000 in
      if elapsed <? 60000 then "Just now"
      else if elapsed <? 3600000 then
        JsString.ofZ (elapsed / 60000) +:+ " minutes ago"
      else if elapsed <? 86400000 then
        let hours := elapsed / 3600000 in
        if hours =? 1 then "1 hour ago" else JsString.ofZ hours +:+ " hours ago"
      else if days =? 1 then "Yesterday"
      else if days <? 7 then JsString.ofZ days +:+ " days ago"
      else if days <? 30 then
        let weeks := days / 7 in
        if weeks =? 1 then "1 week ago" else JsString.ofZ weeks +:+ " weeks ago"
      else ArticleUtils.formatPublishedDate dateString
  end.

End Claimed.

Module Failure.

(** The status a caught value carries: the [status] of a
    [SpaceflightApiError], nothing for any other value. *)
Definition status_of (e : Thrown) : option Z :=
  match e with
  | ThrownApiError a => Errors.status a
  | _ => None
  end.

End Failure.

Module Outcome.

(** Run from the store [h], the computation returns an array that holds
    the list [l']. *)
Definition yields {A : Type}
    (run : JsArray.St A JsArray.ref) (h : JsArray.store A) (l' : list A) : Prop :=
  exists r h', run h = Some (r, h') /\ h' !! r = Some l'.

(** Run with no call made so far, the loader makes the calls [calls] and
    answers with the HTTP status [st], no articles and the error [msg]. *)
Definition answers_error (run : IndexRoute.Eff IndexRoute.Response)
    (calls : list number) (st : Z) (msg : string) : Prop :=
  exists response,
    run [] = (inr response, calls)
    /\ IndexRoute.status response = st
    /\ articles (IndexRoute.body response) = []
    /\ error (IndexRoute.body response) = Some msg.

End Outcome.

Module Comparators.

(** A comparator is consistent on the elements satisfying [P]: its answers
    for a pair and for the swapped pair agree, and "not after" is
    transitive. *)
Definition consistent_on {A : Type} (P : A -> Prop)
    (comparefn : A -> A -> number) : Prop :=
  (forall x y, P x -> P y ->
     (JsArray.SortCompare comparefn y x < 0 <-> 0 < JsArray.SortCompare comparefn x y))
  /\ (forall x y z, P x -> P y -> P z ->
        JsArray.SortCompare comparefn x y <= 0 ->
        JsArray.SortCompare comparefn y z <= 0 ->
        JsArray.SortCompare comparefn x z <= 0).

(** The same for a collation of strings, such as [localeCompare]. *)
Definition consistent_collation (compare : string -> string -> Z) : Prop :=
  (forall a b, compare b a < 0 <-> 0 < compare a b)
  /\ (forall a b c, compare a b <= 0 -> compare b c <= 0 -> compare a c <= 0).

(** [a] is not after [b] in the collation of their titles. *)
Definition title_le (compare : string -> string -> Z) (a b : SpaceflightArticle) : Prop :=
  compare (title a) (title b) <= 0.

End Comparators.

Module Encode.

(** The JSON object of an article: its seven members after the members
    [extra], which stand for whatever else the API sends. *)
Definition article (extra : list (string * Json.value)) (a : SpaceflightArticle)
  : Json.value :=
  Json.JObject
    (extra ++
     [("id", Json.JNumber (id a));
      ("title", Json.JString (title a));
      ("summary", Json.JString (summary a));
      ("image_url", Json.JString (image_url a));
      ("news_site", Json.JString (news_site a));
      ("published_at", Json.JString (published_at a));
      ("url", Json.JString (url a))])%list.

Definition nullable (s : option string) : Json.value :=
  match s with
  | Some x => Json.JString x
  | None => Json.JNull
  end.

(** The JSON object of a list response. *)
Definition response (extra : list (string * Json.value))
    (r : SpaceflightApi.SpaceflightApiResponse) : Json.value :=
  Json.JObject
    [("count", Json.JNumber (SpaceflightApi.count r));
     ("next", nullable (SpaceflightApi.next r));
     ("previous", nullable (SpaceflightApi.previous r));
     ("results", Json.JArray (List.map (article extra) (SpaceflightApi.results r)))].

End Encode.

(** ** Example data *)

Module Examples.

Definition article (n : Z) (heading published : string) : SpaceflightArticle :=
  {| id := n; title := heading; summary := "A summary";
     image_url := "https://example.com/image.jpg"; news_site := "SpaceNews";
     published_at := published; url := "https://example.com/article" |}.

Definition undated : SpaceflightArticle := article 1 "Undated" "invalid-date".

Definition dated : SpaceflightArticle := article 2 "Dated" "2024-01-20T08:45:00Z".

Definition older : SpaceflightArticle := article 3 "Older" "2024-01-10T15:30:00Z".

(** Published at the same time as [dated]. *)
Definition dated_too : SpaceflightArticle := article 4 "Dated too" "2024-01-20T08:45:00Z".

(** A store whose only array, at reference 1, holds the given articles. *)
Definition store_of (l : list SpaceflightArticle) : JsArray.store SpaceflightArticle :=
  {[ 1%positive := l ]}.

(** An API client that rejects every call with the given error. *)
Definition rejecting (a : SpaceflightApiError) (limit : number)
  : Thrown + list SpaceflightArticle :=
  inl (ThrownApiError a).

Definition bad_request : SpaceflightApiError :=
  {| Errors.message := "Bad request"; Errors.status := Some 400; Errors.code := None |}.

Definition api_down : SpaceflightApiError :=
  {| Errors.message := "API is down"; Errors.status := Some 503;
     Errors.code := Some "SERVICE_UNAVAILABLE" |}.

(** The request for [http://localhost:3000/], with no query. *)
Definition plain_request : IndexRoute.Request :=
  {| IndexRoute.searchParams := [] |}.

Definition ok_response : Fetch.Response :=
  {| Fetch.status := 200; Fetch.statusText := "OK" |}.

(** A remote end that answers every URL after 120 ms with status 200 and
    the given outcome of [response.json()]. *)
Definition remote_ok (body : Thrown + Json.value) (url : string)
  : SpaceflightApi.Exchange :=
  {| SpaceflightApi.network :=
       {| Fetch.settles_at := 120; Fetch.transport := Fetch.Delivers ok_response |};
     SpaceflightApi.json := body |}.

(** A remote end that takes 10 seconds to answer. *)
Definition remote_slow (url : string) : SpaceflightApi.Exchange :=
  {| SpaceflightApi.network :=
       {| Fetch.settles_at := 10000; Fetch.transport := Fetch.Delivers ok_response |};
     SpaceflightApi.json := inr Json.JNull |}.


Definition timeout_error : SpaceflightApiError :=
  {| Errors.message := "Request timeout"; Errors.status := Some 408;
     Errors.code := Some "TIMEOUT" |}.

End Examples.

(** * Properties *)

(** ** The runtime functions on examples *)

Example parseInt_decimal : JsNumber.parseInt "100" = Num 100.
Proof. reflexivity. Qed.

Example parseInt_prefix : JsNumber.parseInt "  -12px" = Num (-12).
Proof. reflexivity. Qed.

Example parseInt_hex : JsNumber.parseInt "0x1f" = Num 31.
Proof. reflexivity. Qed.

Example parseInt_no_digits : JsNumber.parseInt "abc" = NaN.
Proof. reflexivity. Qed.

Example trim_both_ends : JsString.trim "  a b  " = "a b".
Proof. reflexivity. Qed.

Example replace_first_only : JsString.replace "a.b.c" "." "" = "ab.c".
Proof. reflexivity. Qed.

Example slice_negative_end : JsString.slice "hello" 0 (-2) = "hel".
Proof. reflexivity. Qed.

Example includes_inside : JsString.includes "nasa mars mission" "mars" = true.
Proof. reflexivity. Qed.

Example parseIsoUtc_2024_01_15 :
  ReferenceRuntime.parseIsoUtc "2024-01-15T10:00:00Z" = Num 1705312800000.
Proof. reflexivity. Qed.

Example parseIsoUtc_invalid : ReferenceRuntime.parseIsoUtc "invalid-date" = NaN.
Proof. reflexivity. Qed.

Example longDateUtc_2024_01_15 :
  ReferenceRuntime.longDateUtc 1705312800000 = "January 15, 2024".
Proof. reflexivity. Qed.

(** ** Arrays *)

Section ArrayFacts.

Context {A : Type}.

Implicit Types (h : JsArray.store A) (l : list A) (a : JsArray.ref).

Lemma fresh_unallocated h : h !! fresh (dom h) = None.
Proof. apply not_elem_of_dom, is_fresh. Qed.

Lemma fresh_ne h a l : h !! a = Some l -> fresh (dom h) <> a.
Proof. intros Ha Heq. rewrite <- Heq, fresh_unallocated in Ha. discriminate. Qed.

Lemma spread_allocates h a l :
  h !! a = Some l ->
  JsArray.spread a h = Some (fresh (dom h), <[fresh (dom h) := l]> h).
Proof.
  intros Ha. unfold JsArray.spread, mbind, JsArray.St_bind, JsArray.read.
  rewrite Ha. reflexivity.
Qed.

Lemma filter_allocates h a l (p : A -> bool) :
  h !! a = Some l ->
  JsArray.filter a p h
  = Some (fresh (dom h), <[fresh (dom h) := List.filter p l]> h).
Proof.
  intros Ha. unfold JsArray.filter, mbind, JsArray.St_bind, JsArray.read.
  rewrite Ha. reflexivity.
Qed.

Lemma sort_in_place h a l (comparefn : A -> A -> number) :
  h !! a = Some l ->
  JsArray.sort a comparefn h
  = Some (a, <[a := JsArray.sorted_order comparefn l]> h).
Proof.
  intros Ha. unfold JsArray.sort, mbind, JsArray.St_bind, JsArray.read.
  rewrite Ha. reflexivity.
Qed.

(** Sorting a spread copy: the result is a fresh array and the store is
    extended by it, nothing else changes. *)
Lemma sort_of_spread h a l (comparefn : A -> A -> number) :
  h !! a = Some l ->
  (sortedArticles ← JsArray.spread a; JsArray.sort sortedArticles comparefn) h
  = Some (fresh (dom h),
          <[fresh (dom h) := JsArray.sorted_order comparefn l]> h).
Proof.
  intros Ha. unfold mbind at 1. unfold JsArray.St_bind.
  rewrite (spread_allocates h a l Ha).
  rewrite (sort_in_place _ _ l) by apply lookup_insert_eq.
  by rewrite insert_insert_eq.
Qed.

Lemma filter_is_sublist (p : A -> bool) l : sublist (List.filter p l) l.
Proof.
  induction l as [|x l IH]; simpl.
  - constructor.
  - destruct (p x); by constructor.
Qed.

Lemma insert_sorted_perm (comparefn : A -> A -> number) x l :
  JsArray.insert_sorted comparefn x l ≡ₚ x :: l.
Proof.
  induction l as [|y l IH]; simpl; [done|].
  destruct (JsArray.SortCompare comparefn y x <? 0); [|done].
  rewrite IH. apply Permutation_swap.
Qed.

Lemma sorted_order_perm (comparefn : A -> A -> number) l :
  JsArray.sorted_order comparefn l ≡ₚ l.
Proof.
  induction l as [|x l IH]; simpl; [done|].
  by rewrite insert_sorted_perm, IH.
Qed.

(** A comparator that, on the elements satisfying [P], is the difference
    of an integer key, second argument minus first: sorting puts such
    elements in non-increasing key order. *)
Section Descending.

Variables (comparefn : A -> A -> number) (P : A -> Prop) (key : A -> Z).

Hypothesis comparefn_key :
  forall x y, P x -> P y -> comparefn x y = Num (key y - key x).

Let desc (x y : A) : Prop := key y <= key x.

Lemma insert_sorted_desc x l :
  P x -> Forall P l ->
  StronglySorted desc l ->
  StronglySorted desc (JsArray.insert_sorted comparefn x l).
Proof.
  intros Px HP Hs. induction Hs as [|y l Hs IH Hy]; simpl.
  - repeat constructor.
  - apply Forall_cons in HP as [Py HP].
    unfold JsArray.SortCompare. rewrite (comparefn_key y x Py Px).
    destruct (Z.ltb_spec (key x - key y) 0) as [Hlt|Hge].
    + constructor; [by apply IH|].
      rewrite insert_sorted_perm. constructor; [unfold desc; lia | done].
    + constructor; [by constructor|].
      constructor; [unfold desc; lia|].
      eapply Forall_impl; [exact Hy|]. unfold desc. intros z Hz. lia.
Qed.

Lemma sorted_order_desc l :
  Forall P l -> StronglySorted desc (JsArray.sorted_order comparefn l).
Proof.
  induction 1 as [|x l Px HP IH]; simpl; [constructor|].
  apply insert_sorted_desc; [done| |done].
  by rewrite sorted_order_perm.
Qed.

End Descending.

End ArrayFacts.

(** ** Searching *)

Section FilterFacts.

Implicit Types (h : JsArray.store SpaceflightArticle) (articles : JsArray.ref).

Lemma blank_term_falsy searchTerm :
  JsString.trim searchTerm = "" ->
  negb (JsString.truthy (JsString.trim searchTerm)) = true.
Proof. intros ->. reflexivity. Qed.

(** C5. For a search term that trims to the empty string, both variants of
    [filterArticlesBySearch] return the very array they were given and leave
    the store as it was: the same elements in the same order. *)
Theorem filterArticlesBySearch_blank_identity h articles searchTerm :
  JsString.trim searchTerm = "" ->
  ArticleUtils.filterArticlesBySearch articles searchTerm h = Some (articles, h)
  /\ Utils.filterArticlesBySearch articles searchTerm h = Some (articles, h).
Proof.
  intros Hblank.
  unfold ArticleUtils.filterArticlesBySearch, Utils.filterArticlesBySearch.
  rewrite (blank_term_falsy _ Hblank). split; reflexivity.
Qed.

Lemma filter_returns_sublist h articles l (p : SpaceflightArticle -> bool) :
  h !! articles = Some l ->
  Searching.returns_sublist (JsArray.filter articles p) h articles.
Proof.
  intros Ha.
  exists (fresh (dom h)), (<[fresh (dom h) := List.filter p l]> h), l, (List.filter p l).
  split; [by apply filter_allocates|].
  split; [done|].
  split; [by rewrite lookup_insert_ne by by eapply fresh_ne|].
  split; [apply lookup_insert_eq | apply filter_is_sublist].
Qed.

Lemma mret_returns_sublist h articles l :
  h !! articles = Some l ->
  Searching.returns_sublist (mret articles) h articles.
Proof. intros Ha. by exists articles, h, l, l. Qed.

(** C10. For every search term, blank or not, the output of both variants of
    [filterArticlesBySearch] is an order-preserving sublist of the input. *)
Theorem filterArticlesBySearch_sublist h articles l searchTerm :
  h !! articles = Some l ->
  Searching.returns_sublist (ArticleUtils.filterArticlesBySearch articles searchTerm) h articles
  /\ Searching.returns_sublist (Utils.filterArticlesBySearch articles searchTerm) h articles.
Proof.
  intros Ha.
  unfold ArticleUtils.filterArticlesBySearch, Utils.filterArticlesBySearch.
  destruct (negb (JsString.truthy (JsString.trim searchTerm)));
    split; eauto using filter_returns_sublist, mret_returns_sublist.
Qed.

End FilterFacts.

(** ** Sorting *)

Section SortFacts.

Context `{Runtime}.

Implicit Types (h : JsArray.store SpaceflightArticle) (articles : JsArray.ref).

Local Abbreviation key := Ordering.key (only parsing).

Lemma parses_timestamp a : Ordering.parses a -> Ordering.timestamp a = Num (key a).
Proof.
  unfold Ordering.parses, Ordering.key. destruct (Ordering.timestamp a); congruence.
Qed.

Lemma compareByDate_key a b :
  Ordering.parses a -> Ordering.parses b ->
  ArticleUtils.compareByDate a b = Num (key b - key a)
  /\ Utils.compareByDate a b = Num (key b - key a).
Proof.
  intros Ha%parses_timestamp Hb%parses_timestamp.
  unfold ArticleUtils.compareByDate, Utils.compareByDate.
  unfold Ordering.timestamp in Ha, Hb. rewrite Ha, Hb. done.
Qed.

Lemma compareByDate_unparsed a b :
  ~ Ordering.parses a \/ ~ Ordering.parses b ->
  ArticleUtils.compareByDate a b = NaN /\ Utils.compareByDate a b = NaN.
Proof.
  unfold Ordering.parses, Ordering.timestamp,
    ArticleUtils.compareByDate, Utils.compareByDate.
  destruct (Date_getTime (published_at a)), (Date_getTime (published_at b));
    intros [Hn|Hn]; try done; exfalso; apply Hn; discriminate.
Qed.

Lemma desc_newest_first l :
  Forall Ordering.parses l ->
  StronglySorted (fun x y => key y <= key x) l ->
  StronglySorted Ordering.newest_first l.
Proof.
  intros HP Hs. induction Hs as [|x l Hs IH Hx]; [constructor|].
  apply Forall_cons in HP as [Px HP]. constructor; [by apply IH|].
  apply Forall_forall. intros y Hy.
  pose proof (proj1 (Forall_forall _ _) Hx y Hy) as Hle.
  pose proof (proj1 (Forall_forall _ _) HP y Hy) as Py.
  unfold Ordering.newest_first.
  rewrite (parses_timestamp x Px), (parses_timestamp y Py). exact Hle.
Qed.

Lemma date_sorted_newest_first (comparefn : SpaceflightArticle -> SpaceflightArticle -> number) l :
  (forall x y, Ordering.parses x -> Ordering.parses y ->
               comparefn x y = Num (key y - key x)) ->
  Forall Ordering.parses l ->
  StronglySorted Ordering.newest_first (JsArray.sorted_order comparefn l).
Proof.
  intros Hcmp HP. apply desc_newest_first.
  - by rewrite sorted_order_perm.
  - by apply (sorted_order_desc comparefn Ordering.parses key).
Qed.

(** What a sort of a spread copy amounts to. *)
Lemma sort_of_spread_copies h articles l comparefn (ordered : list SpaceflightArticle -> Prop) :
  h !! articles = Some l ->
  ordered (JsArray.sorted_order comparefn l) ->
  Sorting.sorts_copy
    (sortedArticles ← JsArray.spread articles; JsArray.sort sortedArticles comparefn)
    h articles l ordered.
Proof.
  intros Ha Hord.
  exists (fresh (dom h)),
    (<[fresh (dom h) := JsArray.sorted_order comparefn l]> h),
    (JsArray.sorted_order comparefn l).
  split; [by apply sort_of_spread|].
  split; [by eapply fresh_ne|].
  split; [by rewrite lookup_insert_ne by by eapply fresh_ne|].
  split; [intros r Hr; by rewrite lookup_insert_ne|].
  split; [apply lookup_insert_eq|].
  split; [apply sorted_order_perm | exact Hord].
Qed.

Lemma spread_copies h articles l (ordered : list SpaceflightArticle -> Prop) :
  h !! articles = Some l ->
  ordered l ->
  Sorting.sorts_copy
    (sortedArticles ← JsArray.spread articles; mret sortedArticles)
    h articles l ordered.
Proof.
  intros Ha Hord.
  exists (fresh (dom h)), (<[fresh (dom h) := l]> h), l.
  split.
  { unfold mbind, JsArray.St_bind. by rewrite (spread_allocates h articles l Ha). }
  split; [by eapply fresh_ne|].
  split; [by rewrite lookup_insert_ne by by eapply fresh_ne|].
  split; [intros r Hr; by rewrite lookup_insert_ne|].
  split; [apply lookup_insert_eq|].
  split; [reflexivity | exact Hord].
Qed.

Lemma SortCompare_unparsed a b :
  ~ Ordering.parses a \/ ~ Ordering.parses b ->
  JsArray.SortCompare ArticleUtils.compareByDate a b = 0
  /\ JsArray.SortCompare Utils.compareByDate a b = 0.
Proof.
  intros [Ha Hu]%compareByDate_unparsed.
  unfold JsArray.SortCompare. by rewrite Ha, Hu.
Qed.

(** C6, as amended.  [sortArticles] never mutates its input: whatever the
    criterion, both variants return a fresh array holding a permutation of the
    input and leave every array of the store as it was.  For the criterion
    ["date"] and a list whose timestamps all parse, the result is in
    non-increasing order of parsed timestamp.  An article whose timestamp does
    not parse makes the comparator return [NaN], which the sort takes as
    "equal": such an article is not ordered as the oldest. *)
Theorem sortArticles_copy_newest_first h articles l sortBy :
  h !! articles = Some l ->
  Sorting.sorts_copy (ArticleUtils.sortArticles articles sortBy) h articles l
    (Sorting.newest_first_if_parsed sortBy l)
  /\ Sorting.sorts_copy (Utils.sortArticles articles sortBy) h articles l
       (Sorting.newest_first_if_parsed sortBy l)
  /\ (forall a b,
        ~ Ordering.parses a \/ ~ Ordering.parses b ->
        JsArray.SortCompare ArticleUtils.compareByDate a b = 0
        /\ JsArray.SortCompare Utils.compareByDate a b = 0).
Proof.
  intros Ha. split; [|split; [|apply SortCompare_unparsed]].
  all: unfold ArticleUtils.sortArticles, Utils.sortArticles,
         Sorting.newest_first_if_parsed.
  all: destruct (String.eqb_spec sortBy "title") as [Htitle|_];
         [|destruct (String.eqb_spec sortBy "date") as [Hdate|Hother]].
  all: first
    [ apply spread_copies; [done|]; intros Hd; congruence
    | apply sort_of_spread_copies; [done|]; intros Hd HP; first
        [ congruence
        | apply date_sorted_newest_first; [|done]; intros x y Px Py;
          apply (compareByDate_key x y Px Py) ] ].
Qed.

End SortFacts.

Lemma sortArticles_copy_newest_first_witness :
  Sorting.sorts_copy
    (@ArticleUtils.sortArticles ReferenceRuntime.runtime 1%positive "date")
    (Examples.store_of [Examples.older; Examples.dated]) 1%positive
    [Examples.older; Examples.dated]
    (@Sorting.newest_first_if_parsed ReferenceRuntime.runtime "date"
       [Examples.older; Examples.dated]).
Proof.
  apply (@sortArticles_copy_newest_first ReferenceRuntime.runtime
           (Examples.store_of [Examples.older; Examples.dated]) 1%positive
           [Examples.older; Examples.dated] "date").
  reflexivity.
Defined.

Example sortArticles_date_example :
  exists result h',
    @ArticleUtils.sortArticles ReferenceRuntime.runtime 1%positive "date"
      (Examples.store_of [Examples.older; Examples.dated]) = Some (result, h')
    /\ h' !! result = Some [Examples.dated; Examples.older]
    /\ h' !! 1%positive = Some [Examples.older; Examples.dated].
Proof. eexists _, _. split; [vm_compute; reflexivity|]. split; reflexivity. Qed.

(** C6, as stated, fails.  Sorted by date, the array holding an article whose
    timestamp does not parse followed by one from 2024 keeps that order, in
    both variants: the article without a timestamp stays first, where an
    article ordered as the oldest would be last. *)
Lemma sortArticles_date_unparsed_not_oldest :
  exists result h',
    @ArticleUtils.sortArticles ReferenceRuntime.runtime 1%positive "date"
      (Examples.store_of [Examples.undated; Examples.dated]) = Some (result, h')
    /\ @Utils.sortArticles ReferenceRuntime.runtime 1%positive "date"
         (Examples.store_of [Examples.undated; Examples.dated]) = Some (result, h')
    /\ h' !! result = Some [Examples.undated; Examples.dated]
    /\ ~ Sorted (@Ordering.newest_first ReferenceRuntime.runtime)
           [Examples.undated; Examples.dated].
Proof.
  eexists _, _. split; [vm_compute; reflexivity|].
  split; [vm_compute; reflexivity|].
  split; [reflexivity|].
  intros Hs. apply Sorted_inv in Hs as [_ Hhd]. apply HdRel_inv in Hhd.
  exact Hhd.
Qed.

(** ** Truncation *)

Lemma slice_from_start text maxLength :
  0 <= maxLength < Z.of_nat (String.length text) ->
  JsString.slice text 0 maxLength = String.substring 0 (Z.to_nat maxLength) text.
Proof.
  intros Hm. unfold JsString.slice.
  destruct (Z.ltb_spec maxLength 0) as [?|_]; [lia|].
  change (0 <? 0) with false. cbv iota.
  rewrite (Z.min_l 0) by lia. rewrite (Z.min_l maxLength) by lia.
  rewrite Z.sub_0_r, Z.max_l by lia. reflexivity.
Qed.

(** C7, as amended.  In both variants [truncateText] returns the text
    unchanged when its length is at most [maxLength]; otherwise, for a
    [maxLength] that is not negative, it returns the first [maxLength]
    characters trimmed of white space at both ends, not only at the end,
    followed by three full stops. *)
Theorem truncateText_trims_both_ends text maxLength :
  (Z.of_nat (String.length text) <= maxLength ->
   ArticleUtils.truncateText text maxLength = text
   /\ Utils.truncateText text maxLength = text)
  /\ (0 <= maxLength < Z.of_nat (String.length text) ->
      ArticleUtils.truncateText text maxLength
      = JsString.trim (String.substring 0 (Z.to_nat maxLength) text) +:+ "..."
      /\ Utils.truncateText text maxLength
         = JsString.trim (String.substring 0 (Z.to_nat maxLength) text) +:+ "...").
Proof.
  unfold ArticleUtils.truncateText, Utils.truncateText. split; intros Hm.
  - destruct (Z.leb_spec (Z.of_nat (String.length text)) maxLength); [done|lia].
  - destruct (Z.leb_spec (Z.of_nat (String.length text)) maxLength); [lia|].
    by rewrite slice_from_start.
Qed.

Lemma truncateText_trims_both_ends_witness :
  ArticleUtils.truncateText "Short text" 20 = "Short text"
  /\ ArticleUtils.truncateText "This is a very long text that should be truncated" 20
     = "This is a very long...".
Proof.
  split.
  - apply (truncateText_trims_both_ends "Short text" 20). simpl. lia.
  - etransitivity.
    + apply (truncateText_trims_both_ends
               "This is a very long text that should be truncated" 20).
      simpl. lia.
    + reflexivity.
Defined.

(** C7, as stated, fails.  Cut to three characters, a text that begins with a
    space loses that space too: the sources trim both ends, where the
    specification's right-trimmed prefix keeps leading white space. *)
Lemma truncateText_not_right_trim_only :
  ArticleUtils.truncateText " ab cd" 3 = "ab..."
  /\ Utils.truncateText " ab cd" 3 = "ab..."
  /\ Claimed.truncateText " ab cd" 3 = " ab..."
  /\ ArticleUtils.truncateText " ab cd" 3 <> Claimed.truncateText " ab cd" 3.
Proof. repeat split; try reflexivity. discriminate. Qed.

(** ** Relative time *)

Section RelativeTimeFacts.

Context `{Runtime}.

Lemma formatRelativeTime_unparsed now dateString :
  Date_getTime dateString = NaN ->
  ArticleUtils.formatRelativeTime now dateString = "Unknown date".
Proof. unfold ArticleUtils.formatRelativeTime. by intros ->. Qed.

(** Decides the comparisons of [formatRelativeTime] from bounds on the
    elapsed time. *)
Ltac settle_buckets :=
  repeat match goal with
    | |- context [Z.eqb ?a ?b] => destruct (Z.eqb_spec a b)
    | |- context [Z.ltb ?a ?b] => destruct (Z.ltb_spec a b)
    | |- context [Z.leb ?a ?b] => destruct (Z.leb_spec a b)
    end;
  try reflexivity;
  exfalso; Z.to_euclidean_division_equations; lia.

(** C8, as amended.  For a timestamp that parses and lies [elapsed]
    milliseconds before [now], with [elapsed] not negative,
    [formatRelativeTime] answers: under 2 minutes "Just now"; from 2 minutes
    and under 1 hour "N minutes ago"; under 1 day "1 hour ago" or "N hours
    ago"; on the 2nd day "Yesterday"; 2 to 6 days "N days ago"; 7 to 29 days
    "1 week ago" or "N weeks ago"; from 30 days the absolute date.  A
    timestamp that does not parse yields "Unknown date". *)
Theorem formatRelativeTime_buckets now dateString t :
  Date_getTime dateString = Num t ->
  0 <= now - t ->
  let elapsed := now - t in
  let answer := ArticleUtils.formatRelativeTime now dateString in
  (elapsed < 120000 -> answer = "Just now")
  /\ (120000 <= elapsed < 3600000 ->
      answer = JsString.ofZ (elapsed / 60000) +:+ " minutes ago")
  /\ (3600000 <= elapsed < 7200000 -> answer = "1 hour ago")
  /\ (7200000 <= elapsed < 86400000 ->
      answer = JsString.ofZ (elapsed / 3600000) +:+ " hours ago")
  /\ (86400000 <= elapsed < 172800000 -> answer = "Yesterday")
  /\ (172800000 <= elapsed < 604800000 ->
      answer = JsString.ofZ (elapsed / 86400000) +:+ " days ago")
  /\ (604800000 <= elapsed < 1209600000 -> answer = "1 week ago")
  /\ (1209600000 <= elapsed < 2592000000 ->
      answer = JsString.ofZ (elapsed / 86400000 / 7) +:+ " weeks ago")
  /\ (2592000000 <= elapsed ->
      answer = ArticleUtils.formatPublishedDate dateString)
  /\ (forall other, Date_getTime other = NaN ->
      ArticleUtils.formatRelativeTime now other = "Unknown date").
Proof.
  intros Ht Hpos elapsed answer. subst answer.
  unfold ArticleUtils.formatRelativeTime. rewrite Ht. fold elapsed.
  change (1000 * 60 * 60 * 24) with 86400000.
  change (1000 * 60 * 60) with 3600000.
  change (1000 * 60) with 60000.
  cbv zeta.
  repeat split; try (intros Hb; settle_buckets).
  intros other Hother. fold (ArticleUtils.formatRelativeTime now other).
  by apply formatRelativeTime_unparsed.
Qed.

End RelativeTimeFacts.

Lemma formatRelativeTime_buckets_witness :
  @ArticleUtils.formatRelativeTime ReferenceRuntime.runtime
    (1705312800000 + 3 * 86400000) "2024-01-15T10:00:00Z" = "3 days ago".
Proof.
  pose proof (@formatRelativeTime_buckets ReferenceRuntime.runtime
                (1705312800000 + 3 * 86400000) "2024-01-15T10:00:00Z"
                1705312800000 eq_refl ltac:(lia)) as Hb.
  cbv zeta in Hb.
  destruct Hb as (_ & _ & _ & _ & _ & Hdays & _).
  etransitivity; [apply Hdays; lia | reflexivity].
Defined.

(** C8, as stated, fails.  Ninety seconds after the timestamp the sources
    still answer "Just now", where the specification's buckets give
    "1 minutes ago": the first bucket of the sources ends at two minutes. *)
Lemma formatRelativeTime_ninety_seconds :
  @ArticleUtils.formatRelativeTime ReferenceRuntime.runtime
    (1705312800000 + 90000) "2024-01-15T10:00:00Z" = "Just now"
  /\ @Claimed.formatRelativeTime ReferenceRuntime.runtime
       (1705312800000 + 90000) "2024-01-15T10:00:00Z" = "1 minutes ago"
  /\ @ArticleUtils.formatRelativeTime ReferenceRuntime.runtime
       (1705312800000 + 90000) "2024-01-15T10:00:00Z"
     <> @Claimed.formatRelativeTime ReferenceRuntime.runtime
          (1705312800000 + 90000) "2024-01-15T10:00:00Z".
Proof. repeat split; try reflexivity. discriminate. Qed.

(** ** Domains *)

Section DomainFacts.

Context `{Runtime}.

Lemma extractDomain_unparsed url :
  URL_new url = None -> ArticleUtils.extractDomain url = "Unknown source".
Proof. unfold ArticleUtils.extractDomain. by intros ->. Qed.

(** A host name that begins with "www." loses that prefix. *)
Lemma extractDomain_leading_www url parsedUrl rest :
  URL_new url = Some parsedUrl ->
  hostname parsedUrl = "www." +:+ rest ->
  ArticleUtils.extractDomain url = rest.
Proof.
  unfold ArticleUtils.extractDomain. intros -> ->.
  destruct rest; reflexivity.
Qed.

(** C9: the failing input.  For a host name that has "www." inside it and
    not in front, here [awww.example.com], [extractDomain] removes that
    inner occurrence and answers [aexample.com]: [replace] takes the first
    occurrence wherever it is, not only a leading one. *)
Theorem extractDomain_inner_www url parsedUrl :
  URL_new url = Some parsedUrl ->
  hostname parsedUrl = "awww.example.com" ->
  ArticleUtils.extractDomain url = "aexample.com".
Proof.
  unfold ArticleUtils.extractDomain. intros -> ->. reflexivity.
Qed.

End DomainFacts.

Lemma extractDomain_inner_www_witness :
  @ArticleUtils.extractDomain ReferenceRuntime.runtime "https://awww.example.com/path"
  = "aexample.com".
Proof.
  apply (@extractDomain_inner_www ReferenceRuntime.runtime
           "https://awww.example.com/path"
           {| protocol := "https:"; hostname := "awww.example.com" |});
    reflexivity.
Defined.

(** Scenario E of the specification, on the reference runtime. *)
Example extractDomain_scenario_E :
  @ArticleUtils.extractDomain ReferenceRuntime.runtime "https://www.example.com/path"
  = "example.com"
  /\ @ArticleUtils.extractDomain ReferenceRuntime.runtime "not-a-url"
     = "Unknown source".
Proof. split; reflexivity. Qed.

(** ** The API client *)

Lemma makeRequest_delivers net response :
  Fetch.settles_at net < 10000 ->
  Fetch.transport net = Fetch.Delivers response ->
  Fetch.ok response = true ->
  ApiClient.makeRequest net = inr response.
Proof.
  intros Ht Htr Hok. unfold ApiClient.makeRequest, Fetch.await_fetch.
  destruct (Z.ltb_spec (Fetch.settles_at net) 10000); [|lia].
  by rewrite Htr, Hok.
Qed.

Lemma makeRequest_throws_typed net e :
  ApiClient.makeRequest net = inl e -> exists a, e = ThrownApiError a.
Proof.
  unfold ApiClient.makeRequest, Fetch.await_fetch.
  destruct (Fetch.settles_at net <? 10000); [destruct (Fetch.transport net)|].
  - destruct (Fetch.ok r); simpl; intros [= <-]; eauto.
  - destruct (String.eqb name "AbortError"); intros [= <-]; eauto.
  - simpl. intros [= <-]; eauto.
Qed.

(** C4. Every failure of [makeRequest] is one [SpaceflightApiError]: status
    408 and code TIMEOUT when the 10 second timer fires first and aborts the
    request; the response's status and status text when a response arrives
    with a status outside 200-299; status 0 and code NETWORK_ERROR, with the
    underlying message wrapped, for any other failure of the transport. *)
Theorem makeRequest_failures net :
  (10000 <= Fetch.settles_at net ->
   ApiClient.makeRequest net
   = inl (ThrownApiError {| Errors.message := "Request timeout";
                            Errors.status := Some 408;
                            Errors.code := Some "TIMEOUT" |}))
  /\ (forall response,
        Fetch.settles_at net < 10000 ->
        Fetch.transport net = Fetch.Delivers response ->
        ~ (200 <= Fetch.status response <= 299) ->
        ApiClient.makeRequest net
        = inl (ThrownApiError
                 {| Errors.message := "HTTP error! status: "
                                      +:+ JsString.ofZ (Fetch.status response);
                    Errors.status := Some (Fetch.status response);
                    Errors.code := Some (Fetch.statusText response) |}))
  /\ (forall name msg,
        Fetch.settles_at net < 10000 ->
        Fetch.transport net = Fetch.Breaks name msg ->
        name <> "AbortError" ->
        ApiClient.makeRequest net
        = inl (ThrownApiError {| Errors.message := "Network error: " +:+ msg;
                                 Errors.status := Some 0;
                                 Errors.code := Some "NETWORK_ERROR" |}))
  /\ (forall e, ApiClient.makeRequest net = inl e -> exists a, e = ThrownApiError a).
Proof.
  split; [|split; [|split]].
  - intros Ht. unfold ApiClient.makeRequest, Fetch.await_fetch.
    destruct (Z.ltb_spec (Fetch.settles_at net) 10000); [lia|]. reflexivity.
  - intros response Ht Htr Hok. unfold ApiClient.makeRequest, Fetch.await_fetch.
    destruct (Z.ltb_spec (Fetch.settles_at net) 10000); [|lia].
    rewrite Htr. unfold Fetch.ok.
    destruct (Z.leb_spec 200 (Fetch.status response));
      destruct (Z.leb_spec (Fetch.status response) 299);
      simpl; try reflexivity; lia.
  - intros name msg Ht Htr Hname. unfold ApiClient.makeRequest, Fetch.await_fetch.
    destruct (Z.ltb_spec (Fetch.settles_at net) 10000); [|lia].
    rewrite Htr. by destruct (String.eqb_spec name "AbortError").
  - apply makeRequest_throws_typed.
Qed.

Lemma makeRequest_failures_witness :
  ApiClient.makeRequest
    {| Fetch.settles_at := 10000;
       Fetch.transport := Fetch.Delivers {| Fetch.status := 200; Fetch.statusText := "OK" |} |}
  = inl (ThrownApiError {| Errors.message := "Request timeout";
                           Errors.status := Some 408;
                           Errors.code := Some "TIMEOUT" |})
  /\ ApiClient.makeRequest
       {| Fetch.settles_at := 120;
          Fetch.transport :=
            Fetch.Delivers {| Fetch.status := 404; Fetch.statusText := "Not Found" |} |}
     = inl (ThrownApiError {| Errors.message := "HTTP error! status: 404";
                              Errors.status := Some 404;
                              Errors.code := Some "Not Found" |})
  /\ ApiClient.makeRequest
       {| Fetch.settles_at := 120;
          Fetch.transport := Fetch.Breaks "TypeError" "fetch failed" |}
     = inl (ThrownApiError {| Errors.message := "Network error: fetch failed";
                              Errors.status := Some 0;
                              Errors.code := Some "NETWORK_ERROR" |}).
Proof.
  split; [|split].
  - apply makeRequest_failures. simpl. lia.
  - apply (proj1 (proj2 (makeRequest_failures _))
             {| Fetch.status := 404; Fetch.statusText := "Not Found" |});
      simpl; [lia | reflexivity | lia].
  - apply (proj1 (proj2 (proj2 (makeRequest_failures _))) "TypeError" "fetch failed");
      simpl; [lia | reflexivity | discriminate].
Defined.

(** ** The loader *)

Section LoaderFacts.

Variable fetchLatestArticles : number -> Thrown + list SpaceflightArticle.

Variable now_iso : string.

Implicit Types (request : IndexRoute.Request).

(** The loader calls the API client once, with the resolved limit, and
    always answers with a response. *)
Lemma loader_calls_with_resolved_limit request :
  exists response,
    IndexRoute.loader fetchLatestArticles now_iso request []
    = (inr response, [IndexRoute.resolve_limit request]).
Proof.
  unfold IndexRoute.loader, IndexRoute.try_catch, mbind, IndexRoute.Eff_bind,
    IndexRoute.await_fetchLatestArticles.
  destruct (fetchLatestArticles (IndexRoute.resolve_limit request)) as [e|fetched];
    simpl.
  - destruct e as [a| |]; simpl; eauto.
  - eauto.
Qed.

Lemma resolve_limit_absent request :
  IndexRoute.searchParams_get (IndexRoute.searchParams request) "limit" = None ->
  IndexRoute.resolve_limit request = Num 20.
Proof. unfold IndexRoute.resolve_limit. by intros ->. Qed.

Lemma resolve_limit_parsed request s n :
  IndexRoute.searchParams_get (IndexRoute.searchParams request) "limit" = Some s ->
  JsNumber.parseInt s = Num n ->
  IndexRoute.resolve_limit request = Num (Z.min n 50).
Proof.
  unfold IndexRoute.resolve_limit. intros -> Hn.
  destruct s; [discriminate Hn|]. simpl JsString.truthy. cbv iota.
  by rewrite Hn.
Qed.

Lemma resolve_limit_at_most_50 request n :
  IndexRoute.resolve_limit request = Num n -> n <= 50.
Proof.
  unfold IndexRoute.resolve_limit, JsNumber.min.
  destruct (JsNumber.parseInt _); [discriminate|]. intros [= <-]. lia.
Qed.

(** Scenario B: [limit=100] reaches the API client as 50. *)
Example loader_limit_100 :
  snd (IndexRoute.loader fetchLatestArticles now_iso
         {| IndexRoute.searchParams := [("limit", "100")] |} [])
  = [Num 50].
Proof.
  destruct (loader_calls_with_resolved_limit
              {| IndexRoute.searchParams := [("limit", "100")] |}) as [response ->].
  reflexivity.
Qed.

(** C2: the failing input.  For the query [limit=abc] the limit resolves to
    [NaN], not to 20, and [NaN] is what the API client is called with:
    [parseInt] yields [NaN] and [Math.min] keeps it. *)
Theorem loader_limit_unparseable :
  IndexRoute.resolve_limit {| IndexRoute.searchParams := [("limit", "abc")] |} = NaN
  /\ snd (IndexRoute.loader fetchLatestArticles now_iso
            {| IndexRoute.searchParams := [("limit", "abc")] |} [])
     = [NaN].
Proof.
  split; [reflexivity|].
  destruct (loader_calls_with_resolved_limit
              {| IndexRoute.searchParams := [("limit", "abc")] |}) as [response ->].
  reflexivity.
Qed.

(** C1. When the fetch of the latest articles rejects, the loader answers
    with status 500 if the failure carries no status, status 0 or a status
    of 500 or more, and with status 200 if it carries a 4xx status; in each
    case the body is an envelope with no articles and the failure's message
    as its error. *)
Theorem loader_failure_status request e :
  fetchLatestArticles (IndexRoute.resolve_limit request) = inl e ->
  exists response msg,
    IndexRoute.loader fetchLatestArticles now_iso request []
    = (inr response, [IndexRoute.resolve_limit request])
    /\ (Failure.status_of e = None -> IndexRoute.status response = 500)
    /\ (forall s, Failure.status_of e = Some s -> 500 <= s \/ s = 0 ->
                  IndexRoute.status response = 500)
    /\ (forall s, Failure.status_of e = Some s -> 400 <= s < 500 ->
                  IndexRoute.status response = 200)
    /\ IndexRoute.body response
       = {| articles := [];
            error := Some msg;
            meta := {| total := 0; hasMore := false; loadedAt := now_iso |} |}
    /\ (forall a, e = ThrownApiError a -> msg = Errors.message a)
    /\ (forall name m, e = ThrownError name m -> msg = m).
Proof.
  intros He.
  unfold IndexRoute.loader, IndexRoute.try_catch, mbind, IndexRoute.Eff_bind,
    IndexRoute.await_fetchLatestArticles.
  rewrite He. simpl.
  destruct e as [a|name m|]; simpl.
  - eexists _, (Errors.message a). split; [reflexivity|]. simpl.
    destruct (Errors.status a) as [s|]; repeat split; try congruence.
    + intros s' [= <-] Hs.
      destruct (Z.eqb_spec s 0); [reflexivity|].
      destruct (Z.leb_spec 500 s); [reflexivity|lia].
    + intros s' [= <-] Hs.
      destruct (Z.eqb_spec s 0); [lia|].
      destruct (Z.leb_spec 500 s); [lia|reflexivity].
  - eexists _, m. split; [reflexivity|]. simpl.
    repeat split; try congruence.
  - eexists _, "Failed to load articles". split; [reflexivity|]. simpl.
    repeat split; try congruence.
Qed.

(** C3. The envelope of every response of the loader has [meta.total] equal
    to the number of articles, and never both articles and an error: after a
    failure no articles, an error, total 0 and [hasMore] false; after a
    success no error, and [hasMore] exactly when the number of articles
    equals the resolved limit. *)
Theorem loader_envelope_invariant request :
  exists response,
    IndexRoute.loader fetchLatestArticles now_iso request []
    = (inr response, [IndexRoute.resolve_limit request])
    /\ total (meta (IndexRoute.body response))
       = Z.of_nat (length (articles (IndexRoute.body response)))
    /\ (articles (IndexRoute.body response) = []
        \/ error (IndexRoute.body response) = None)
    /\ match fetchLatestArticles (IndexRoute.resolve_limit request) with
       | inl _ =>
           articles (IndexRoute.body response) = []
           /\ is_Some (error (IndexRoute.body response))
           /\ total (meta (IndexRoute.body response)) = 0
           /\ hasMore (meta (IndexRoute.body response)) = false
       | inr fetched =>
           articles (IndexRoute.body response) = fetched
           /\ error (IndexRoute.body response) = None
           /\ (hasMore (meta (IndexRoute.body response)) = true
               <-> Num (Z.of_nat (length fetched)) = IndexRoute.resolve_limit request)
       end.
Proof.
  unfold IndexRoute.loader, IndexRoute.try_catch, mbind, IndexRoute.Eff_bind,
    IndexRoute.await_fetchLatestArticles.
  destruct (fetchLatestArticles (IndexRoute.resolve_limit request)) as [e|fetched];
    simpl.
  - destruct e as [a|name m|]; simpl; eexists; (split; [reflexivity|]); simpl;
      repeat split; eauto.
  - eexists. split; [reflexivity|]. simpl. repeat split; eauto.
    + unfold JsNumber.strict_eq.
      destruct (IndexRoute.resolve_limit request) as [|n]; [discriminate|].
      intros ->%Z.eqb_eq. reflexivity.
    + intros <-. simpl. apply Z.eqb_refl.
Qed.

End LoaderFacts.

(** Scenario D: a failure with status 400 is answered with status 200 and
    the error in the body. *)
Lemma loader_failure_status_witness :
  exists response,
    IndexRoute.loader (Examples.rejecting Examples.bad_request)
      "2024-01-15T10:00:00.000Z" Examples.plain_request []
    = (inr response, [Num 20])
    /\ IndexRoute.status response = 200
    /\ error (IndexRoute.body response) = Some "Bad request".
Proof.
  destruct (loader_failure_status (Examples.rejecting Examples.bad_request)
              "2024-01-15T10:00:00.000Z" Examples.plain_request
              (ThrownApiError Examples.bad_request) eq_refl)
    as (response & msg & Hrun & _ & _ & H4xx & Hbody & Hmsg & _).
  exists response. split; [exact Hrun|]. split.
  - apply (H4xx 400); [reflexivity | lia].
  - rewrite Hbody. simpl. f_equal. exact (Hmsg _ eq_refl).
Defined.

(** Scenario C: a failure with status 503 is answered with status 500, no
    articles and a [Retry-After] of 60 seconds. *)
Example loader_scenario_C :
  exists response,
    IndexRoute.loader (Examples.rejecting Examples.api_down)
      "2024-01-15T10:00:00.000Z" Examples.plain_request []
    = (inr response, [Num 20])
    /\ IndexRoute.status response = 500
    /\ articles (IndexRoute.body response) = []
    /\ error (IndexRoute.body response) = Some "API is down"
    /\ IndexRoute.headers response !! "Retry-After" = Some "60"
    /\ IndexRoute.headers response !! "Cache-Control"
       = Some "no-cache, no-store, must-revalidate".
Proof. eexists. split; [reflexivity|]. repeat split; by vm_compute. Qed.

(** Scenario A: no [limit] and twenty articles fetched. *)
Example loader_scenario_A :
  exists response,
    IndexRoute.loader (fun _ => inr (replicate 20 Examples.dated))
      "2024-01-15T10:00:00.000Z" Examples.plain_request []
    = (inr response, [Num 20])
    /\ IndexRoute.status response = 200
    /\ total (meta (IndexRoute.body response)) = 20
    /\ hasMore (meta (IndexRoute.body response)) = true
    /\ error (IndexRoute.body response) = None
    /\ IndexRoute.headers response !! "Cache-Control"
       = Some "public, max-age=300, stale-while-revalidate=600".
Proof. eexists. split; [reflexivity|]. repeat split; by vm_compute. Qed.

Lemma filterArticlesBySearch_blank_identity_witness :
  ArticleUtils.filterArticlesBySearch 1%positive "   "
    (Examples.store_of [Examples.dated; Examples.older])
  = Some (1%positive, Examples.store_of [Examples.dated; Examples.older])
  /\ Utils.filterArticlesBySearch 1%positive "   "
       (Examples.store_of [Examples.dated; Examples.older])
     = Some (1%positive, Examples.store_of [Examples.dated; Examples.older]).
Proof.
  apply (filterArticlesBySearch_blank_identity
           (Examples.store_of [Examples.dated; Examples.older]) 1%positive "   ").
  reflexivity.
Defined.

Lemma filterArticlesBySearch_sublist_witness :
  Searching.returns_sublist
    (ArticleUtils.filterArticlesBySearch 1%positive "OLD")
    (Examples.store_of [Examples.dated; Examples.older]) 1%positive
  /\ Searching.returns_sublist
       (Utils.filterArticlesBySearch 1%positive "OLD")
       (Examples.store_of [Examples.dated; Examples.older]) 1%positive.
Proof.
  apply (filterArticlesBySearch_sublist
           (Examples.store_of [Examples.dated; Examples.older]) 1%positive
           [Examples.dated; Examples.older] "OLD").
  reflexivity.
Defined.

Example filterArticlesBySearch_example :
  exists result h',
    ArticleUtils.filterArticlesBySearch 1%positive " OLD "
      (Examples.store_of [Examples.dated; Examples.older]) = Some (result, h')
    /\ h' !! result = Some [Examples.older].
Proof. eexists _, _. split; [vm_compute; reflexivity | reflexivity]. Qed.

(** * Further properties of the sources *)

(** ** Strings: trimming and lower-casing *)

Section StringFacts.

Import JsString.

Lemma isWhiteSpace_toLowerChar c : isWhiteSpace (toLowerChar c) = isWhiteSpace c.
Proof. destruct c as [[] [] [] [] [] [] [] []]; reflexivity. Qed.

Lemma toLowerCase_empty s : toLowerCase s = "" <-> s = "".
Proof. destruct s; simpl; split; congruence. Qed.

Lemma trimStart_toLowerCase s : trimStart (toLowerCase s) = toLowerCase (trimStart s).
Proof.
  induction s as [|c s IH]; simpl; [done|].
  rewrite isWhiteSpace_toLowerChar. by destruct (isWhiteSpace c).
Qed.

Lemma trimEnd_toLowerCase s : trimEnd (toLowerCase s) = toLowerCase (trimEnd s).
Proof.
  induction s as [|c s IH]; simpl; [done|].
  rewrite IH, isWhiteSpace_toLowerChar.
  destruct (trimEnd s); simpl; [by destruct (isWhiteSpace c)|done].
Qed.

(** Trimming and lower-casing commute: the two search variants normalise a
    term to the same string. *)
Lemma trim_toLowerCase s : trim (toLowerCase s) = toLowerCase (trim s).
Proof. unfold trim. by rewrite trimStart_toLowerCase, trimEnd_toLowerCase. Qed.

Lemma trimEnd_idemp s : trimEnd (trimEnd s) = trimEnd s.
Proof.
  induction s as [|c s IH]; simpl; [done|].
  destruct (trimEnd s) as [|d r] eqn:Hr.
  - destruct (isWhiteSpace c) eqn:Hc; simpl; [done|]. by rewrite Hc.
  - simpl. simpl in IH. by rewrite IH.
Qed.

Lemma trimStart_length s : (String.length (trimStart s) <= String.length s)%nat.
Proof. induction s as [|c s IH]; simpl; [done|]. destruct (isWhiteSpace c); simpl; lia. Qed.

Lemma trimStart_head c s :
  trimStart (String c s) = String c s -> isWhiteSpace c = false.
Proof.
  simpl. destruct (isWhiteSpace c); [|done]. intros Heq.
  pose proof (trimStart_length s) as Hlen. rewrite Heq in Hlen. simpl in Hlen. lia.
Qed.

Lemma trimStart_idemp s : trimStart (trimStart s) = trimStart s.
Proof.
  induction s as [|c s IH]; simpl; [done|].
  destruct (isWhiteSpace c) eqn:Hc; [done|]. simpl. by rewrite Hc.
Qed.

Lemma trimStart_trimEnd_fixed u : trimStart u = u -> trimStart (trimEnd u) = trimEnd u.
Proof.
  destruct u as [|c s]; [done|]. intros Hc%trimStart_head. simpl.
  destruct (trimEnd s); [rewrite Hc|]; simpl; by rewrite Hc.
Qed.

Lemma trim_idemp s : trim (trim s) = trim s.
Proof.
  unfold trim.
  rewrite (trimStart_trimEnd_fixed (trimStart s)) by apply trimStart_idemp.
  apply trimEnd_idemp.
Qed.

End StringFacts.

(** ** Searching, further *)

Section FilterMoreFacts.

Implicit Types (h : JsArray.store SpaceflightArticle) (articles : JsArray.ref).

Lemma truthy_toLowerCase s :
  JsString.truthy (JsString.toLowerCase s) = JsString.truthy s.
Proof. by destruct s. Qed.

Lemma truthy_trim_toLowerCase s :
  JsString.truthy (JsString.trim s)
  = JsString.truthy (JsString.trim (JsString.toLowerCase s)).
Proof. by rewrite trim_toLowerCase, truthy_toLowerCase. Qed.

(** X1. The result of a search depends on the term only through its
    lower-cased, trimmed form: two terms that normalise to the same string
    give the same result, in both variants.  So a search ignores the case of
    the term and the white space around it. *)
Theorem filterArticlesBySearch_normalised h articles term term' :
  JsString.trim (JsString.toLowerCase term)
  = JsString.trim (JsString.toLowerCase term') ->
  ArticleUtils.filterArticlesBySearch articles term h
  = ArticleUtils.filterArticlesBySearch articles term' h
  /\ Utils.filterArticlesBySearch articles term h
     = Utils.filterArticlesBySearch articles term' h.
Proof.
  intros Hnorm.
  unfold ArticleUtils.filterArticlesBySearch, Utils.filterArticlesBySearch.
  rewrite (truthy_trim_toLowerCase term), (truthy_trim_toLowerCase term').
  rewrite <- !trim_toLowerCase. by rewrite Hnorm.
Qed.

Lemma filterArticlesBySearch_normalised_witness :
  ArticleUtils.filterArticlesBySearch 1%positive "  OLDER " 
    (Examples.store_of [Examples.dated; Examples.older])
  = ArticleUtils.filterArticlesBySearch 1%positive "older"
      (Examples.store_of [Examples.dated; Examples.older])
  /\ Utils.filterArticlesBySearch 1%positive "  OLDER "
       (Examples.store_of [Examples.dated; Examples.older])
     = Utils.filterArticlesBySearch 1%positive "older"
         (Examples.store_of [Examples.dated; Examples.older]).
Proof.
  apply (filterArticlesBySearch_normalised
           (Examples.store_of [Examples.dated; Examples.older]) 1%positive
           "  OLDER " "older").
  reflexivity.
Defined.

Lemma filter_sublist_mono {A : Type} (p q : A -> bool) (l : list A) :
  (forall x, p x = true -> q x = true) ->
  sublist (List.filter p l) (List.filter q l).
Proof.
  intros Hpq. induction l as [|x l IH]; simpl; [constructor|].
  destruct (p x) eqn:Hp.
  - rewrite (Hpq x Hp). by constructor.
  - destruct (q x); [by constructor|done].
Qed.

(** X2. On the same array and term, what the title-only variant finds is a
    sublist of what the variant matching title, summary and site finds. *)
Theorem filterArticlesBySearch_title_only_finds_less h articles l term :
  h !! articles = Some l ->
  exists narrow h1 l1 broad h2 l2,
    Utils.filterArticlesBySearch articles term h = Some (narrow, h1)
    /\ h1 !! narrow = Some l1
    /\ ArticleUtils.filterArticlesBySearch articles term h = Some (broad, h2)
    /\ h2 !! broad = Some l2
    /\ sublist l1 l2.
Proof.
  intros Ha.
  unfold ArticleUtils.filterArticlesBySearch, Utils.filterArticlesBySearch.
  destruct (negb (JsString.truthy (JsString.trim term))).
  - by exists articles, h, l, articles, h, l.
  - rewrite !(filter_allocates h articles l) by done.
    do 6 eexists. split; [reflexivity|]. split; [apply lookup_insert_eq|].
    split; [reflexivity|]. split; [apply lookup_insert_eq|].
    apply filter_sublist_mono. intros x Hx. simpl.
    rewrite trim_toLowerCase, Hx. reflexivity.
Qed.

Lemma filterArticlesBySearch_title_only_finds_less_witness :
  exists narrow h1 l1 broad h2 l2,
    Utils.filterArticlesBySearch 1%positive "summary"
      (Examples.store_of [Examples.dated; Examples.older]) = Some (narrow, h1)
    /\ h1 !! narrow = Some l1
    /\ ArticleUtils.filterArticlesBySearch 1%positive "summary"
         (Examples.store_of [Examples.dated; Examples.older]) = Some (broad, h2)
    /\ h2 !! broad = Some l2
    /\ sublist l1 l2.
Proof.
  apply (filterArticlesBySearch_title_only_finds_less
           (Examples.store_of [Examples.dated; Examples.older]) 1%positive
           [Examples.dated; Examples.older] "summary").
  reflexivity.
Defined.

Lemma filter_filter_same {A : Type} (p : A -> bool) (l : list A) :
  List.filter p (List.filter p l) = List.filter p l.
Proof.
  induction l as [|x l IH]; simpl; [done|].
  destruct (p x) eqn:Hp; simpl; [rewrite Hp; by f_equal | done].
Qed.

(** X3. Searching is idempotent: searching the result of a search for the
    same term again finds the same articles in the same order, in both
    variants. *)
Theorem filterArticlesBySearch_idempotent h articles l term :
  h !! articles = Some l ->
  (exists r1 h1 l1 r2 h2,
     ArticleUtils.filterArticlesBySearch articles term h = Some (r1, h1)
     /\ h1 !! r1 = Some l1
     /\ ArticleUtils.filterArticlesBySearch r1 term h1 = Some (r2, h2)
     /\ h2 !! r2 = Some l1)
  /\ (exists r1 h1 l1 r2 h2,
        Utils.filterArticlesBySearch articles term h = Some (r1, h1)
        /\ h1 !! r1 = Some l1
        /\ Utils.filterArticlesBySearch r1 term h1 = Some (r2, h2)
        /\ h2 !! r2 = Some l1).
Proof.
  intros Ha.
  unfold ArticleUtils.filterArticlesBySearch, Utils.filterArticlesBySearch.
  destruct (negb (JsString.truthy (JsString.trim term))).
  - split; by exists articles, h, l, articles, h.
  - split.
    all: rewrite (filter_allocates h articles l) by done.
    all: do 5 eexists; split; [reflexivity|].
    all: split; [apply lookup_insert_eq|].
    all: rewrite (filter_allocates _ _ _ _ (lookup_insert_eq _ _ _)).
    all: split; [reflexivity|].
    all: by rewrite lookup_insert_eq, filter_filter_same.
Qed.

Lemma filterArticlesBySearch_idempotent_witness :
  exists r1 h1 l1 r2 h2,
    ArticleUtils.filterArticlesBySearch 1%positive "older"
      (Examples.store_of [Examples.dated; Examples.older]) = Some (r1, h1)
    /\ h1 !! r1 = Some l1
    /\ ArticleUtils.filterArticlesBySearch r1 "older" h1 = Some (r2, h2)
    /\ h2 !! r2 = Some l1.
Proof.
  apply (filterArticlesBySearch_idempotent
           (Examples.store_of [Examples.dated; Examples.older]) 1%positive
           [Examples.dated; Examples.older] "older").
  reflexivity.
Defined.

End FilterMoreFacts.

(** ** Sorting with a consistent comparator *)

Section ConsistentSort.

Context {A : Type}.

Variables (comparefn : A -> A -> number) (P : A -> Prop).

Hypothesis consistent : Comparators.consistent_on P comparefn.

Local Abbreviation cmp := (JsArray.SortCompare comparefn).

Local Abbreviation le := (fun x y : A => JsArray.SortCompare comparefn x y <= 0).

Lemma not_before_le x y : P x -> P y -> ~ cmp y x < 0 -> cmp x y <= 0.
Proof. intros Px Py Hn. destruct consistent as [Hsym _]. specialize (Hsym x y Px Py). lia. Qed.

Lemma le_not_before x y : P x -> P y -> cmp x y <= 0 -> ~ cmp y x < 0.
Proof. intros Px Py Hle. destruct consistent as [Hsym _]. specialize (Hsym x y Px Py). lia. Qed.

Lemma le_trans x y z : P x -> P y -> P z -> cmp x y <= 0 -> cmp y z <= 0 -> cmp x z <= 0.
Proof. destruct consistent as [_ Htrans]. apply Htrans. Qed.

Lemma insert_sorted_le x l :
  P x -> Forall P l ->
  StronglySorted le l ->
  StronglySorted le (JsArray.insert_sorted comparefn x l).
Proof.
  intros Px HP Hs. induction Hs as [|y l Hs IH Hy]; simpl.
  - repeat constructor.
  - apply Forall_cons in HP as [Py HP].
    destruct (Z.ltb_spec (cmp y x) 0) as [Hlt|Hge].
    + constructor; [by apply IH|].
      rewrite insert_sorted_perm. constructor; [lia | done].
    + assert (cmp x y <= 0) as Hxy by (apply not_before_le; [done..|lia]).
      constructor; [by constructor|].
      constructor; [done|].
      apply Forall_forall. intros z Hz.
      apply (le_trans x y z); [done|done| |done|].
      * exact (proj1 (Forall_forall _ _) HP z Hz).
      * exact (proj1 (Forall_forall _ _) Hy z Hz).
Qed.

Lemma sorted_order_sorted l :
  Forall P l -> StronglySorted le (JsArray.sorted_order comparefn l).
Proof.
  induction 1 as [|x l Px HP IH]; simpl; [constructor|].
  apply insert_sorted_le; [done| |done].
  by rewrite sorted_order_perm.
Qed.

Lemma insert_sorted_head x l :
  P x -> Forall P l -> Forall (le x) l ->
  JsArray.insert_sorted comparefn x l = x :: l.
Proof.
  intros Px HP Hle. destruct l as [|y l]; simpl; [done|].
  apply Forall_cons in HP as [Py _]. apply Forall_cons in Hle as [Hxy _].
  pose proof (le_not_before x y Px Py Hxy).
  destruct (Z.ltb_spec (cmp y x) 0); [lia|done].
Qed.

(** A sorted array is left as it is. *)
Lemma sorted_order_fixed l :
  Forall P l -> StronglySorted le l -> JsArray.sorted_order comparefn l = l.
Proof.
  intros HP Hs. induction Hs as [|x l Hs IH Hx]; simpl; [done|].
  apply Forall_cons in HP as [Px HP].
  rewrite IH by done. by apply insert_sorted_head.
Qed.

Lemma sorted_order_idemp l :
  Forall P l ->
  JsArray.sorted_order comparefn (JsArray.sorted_order comparefn l)
  = JsArray.sorted_order comparefn l.
Proof.
  intros HP. apply sorted_order_fixed.
  - by rewrite sorted_order_perm.
  - by apply sorted_order_sorted.
Qed.

(** Stability: among the elements that compare equal to [z], the order is
    kept. *)
Lemma insert_sorted_class z x l :
  P z -> P x -> Forall P l ->
  List.filter (fun y => cmp z y =? 0) (JsArray.insert_sorted comparefn x l)
  = List.filter (fun y => cmp z y =? 0) (x :: l).
Proof.
  intros Pz Px HP. induction l as [|y l IH]; [done|].
  apply Forall_cons in HP as [Py HP]. cbn [JsArray.insert_sorted].
  destruct (Z.ltb_spec (cmp y x) 0) as [Hlt|Hge]; [|done].
  cbn [List.filter]. rewrite (IH HP). cbn [List.filter].
  destruct (Z.eqb_spec (cmp z x) 0) as [Hzx|Hzx];
    destruct (Z.eqb_spec (cmp z y) 0) as [Hzy|Hzy]; try done.
  exfalso.
  assert (cmp x z <= 0) as Hxz.
  { apply not_before_le; [done..|lia]. }
  assert (cmp x y <= 0) as Hxy.
  { apply (le_trans x z y); [done..|lia]. }
  by apply (le_not_before x y Px Py Hxy).
Qed.

Lemma sorted_order_stable z l :
  P z -> Forall P l ->
  List.filter (fun y => cmp z y =? 0) (JsArray.sorted_order comparefn l)
  = List.filter (fun y => cmp z y =? 0) l.
Proof.
  intros Pz HP. induction HP as [|x l Px HP IH]; [done|].
  cbn [JsArray.sorted_order].
  rewrite insert_sorted_class; [|done|done|by rewrite sorted_order_perm].
  cbn [List.filter]. by rewrite IH.
Qed.

Lemma Forall_filter_bool (Q : A -> Prop) (p : A -> bool) l :
  Forall Q l -> Forall Q (List.filter p l).
Proof.
  induction 1 as [|x l Qx HQ IH]; simpl; [constructor|].
  destruct (p x); [by constructor | done].
Qed.

(** Selecting from a sorted array commutes with inserting into it. *)
Lemma insert_sorted_filter (p : A -> bool) x l :
  P x -> Forall P l -> StronglySorted le l ->
  List.filter p (JsArray.insert_sorted comparefn x l)
  = if p x then JsArray.insert_sorted comparefn x (List.filter p l)
    else List.filter p l.
Proof.
  intros Px HP Hs. induction Hs as [|y l Hs IH Hy]; [simpl; by destruct (p x)|].
  apply Forall_cons in HP as [Py HP]. cbn [JsArray.insert_sorted].
  destruct (Z.ltb_spec (cmp y x) 0) as [Hlt|Hge].
  - cbn [List.filter]. rewrite (IH HP).
    destruct (p x), (p y); try done.
    cbn [JsArray.insert_sorted].
    by destruct (Z.ltb_spec (cmp y x) 0); [|lia].
  - cbn [List.filter]. destruct (p x); [|done].
    symmetry.
    assert (cmp x y <= 0) as Hxy by (apply not_before_le; [done..|lia]).
    assert (Forall (le x) (y :: l)) as Hall.
    { constructor; [done|]. apply Forall_forall. intros z Hz.
      apply (le_trans x y z); [done|done| |done|].
      * exact (proj1 (Forall_forall _ _) HP z Hz).
      * exact (proj1 (Forall_forall _ _) Hy z Hz). }
    apply insert_sorted_head; [done| |].
    + apply (Forall_filter_bool P p (y :: l)). by constructor.
    + by apply (Forall_filter_bool (le x) p (y :: l)).
Qed.

Lemma sorted_order_filter (p : A -> bool) l :
  Forall P l ->
  JsArray.sorted_order comparefn (List.filter p l)
  = List.filter p (JsArray.sorted_order comparefn l).
Proof.
  intros HP. induction HP as [|x l Px HP IH]; [done|].
  cbn [JsArray.sorted_order List.filter].
  rewrite insert_sorted_filter;
    [|done|by rewrite sorted_order_perm|by apply sorted_order_sorted].
  destruct (p x); [|done]. cbn [JsArray.sorted_order]. by rewrite IH.
Qed.

End ConsistentSort.

(** ** Sorting, further *)

Section SortMoreFacts.

Context `{Runtime}.

Implicit Types (h : JsArray.store SpaceflightArticle) (articles : JsArray.ref).

Lemma date_consistent :
  Comparators.consistent_on Ordering.parses ArticleUtils.compareByDate
  /\ Comparators.consistent_on Ordering.parses Utils.compareByDate.
Proof.
  split; split.
  all: unfold JsArray.SortCompare.
  1, 3: intros x y Px Py;
    destruct (compareByDate_key x y Px Py) as [E1 E2];
    destruct (compareByDate_key y x Py Px) as [E3 E4];
    rewrite ?E1, ?E2, ?E3, ?E4; lia.
  all: intros x y z Px Py Pz;
    destruct (compareByDate_key x y Px Py) as [E1 E2];
    destruct (compareByDate_key y z Py Pz) as [E3 E4];
    destruct (compareByDate_key x z Px Pz) as [E5 E6];
    rewrite ?E1, ?E2, ?E3, ?E4, ?E5, ?E6; lia.
Qed.

Lemma title_consistent (compare : string -> string -> Z) :
  Comparators.consistent_collation compare ->
  Comparators.consistent_on (fun _ => True)
    (fun a b : SpaceflightArticle => Num (compare (title a) (title b))).
Proof.
  intros [Hsym Htrans]. split; unfold JsArray.SortCompare.
  - intros x y _ _. apply Hsym.
  - intros x y z _ _ _. apply Htrans.
Qed.

Lemma bool_decide_ext_Z (a b : Z) : (a - b =? 0) = (a =? b).
Proof. destruct (Z.eqb_spec (a - b) 0), (Z.eqb_spec a b); lia || done. Qed.

Lemma Forall_True {A : Type} (l : list A) : Forall (fun _ => True) l.
Proof. by apply Forall_forall. Qed.

Lemma sortArticles_date_run h articles l :
  h !! articles = Some l ->
  ArticleUtils.sortArticles articles "date" h
  = Some (fresh (dom h),
          <[fresh (dom h) := JsArray.sorted_order ArticleUtils.compareByDate l]> h)
  /\ Utils.sortArticles articles "date" h
     = Some (fresh (dom h),
             <[fresh (dom h) := JsArray.sorted_order Utils.compareByDate l]> h).
Proof. intros Ha. split; by apply sort_of_spread. Qed.

Lemma sortArticles_title_run h articles l :
  h !! articles = Some l ->
  ArticleUtils.sortArticles articles "title" h
  = Some (fresh (dom h),
          <[fresh (dom h) :=
              JsArray.sorted_order
                (fun a b => Num (localeCompare_en_base (title a) (title b))) l]> h)
  /\ Utils.sortArticles articles "title" h
     = Some (fresh (dom h),
             <[fresh (dom h) :=
                 JsArray.sorted_order
                   (fun a b => Num (localeCompare (title a) (title b))) l]> h).
Proof. intros Ha. split; by apply sort_of_spread. Qed.

Lemma sortArticles_other_run h articles l sortBy :
  sortBy <> "title" -> sortBy <> "date" ->
  h !! articles = Some l ->
  ArticleUtils.sortArticles articles sortBy h
  = Some (fresh (dom h), <[fresh (dom h) := l]> h)
  /\ Utils.sortArticles articles sortBy h
     = Some (fresh (dom h), <[fresh (dom h) := l]> h).
Proof.
  intros Ht Hd Ha. unfold ArticleUtils.sortArticles, Utils.sortArticles.
  destruct (String.eqb_spec sortBy "title"); [done|].
  destruct (String.eqb_spec sortBy "date"); [done|].
  unfold mbind, JsArray.St_bind. by rewrite (spread_allocates h articles l Ha).
Qed.

(** X4. With a consistent collation, sorting by title puts the articles in
    non-decreasing order of title: under [localeCompare] with base
    sensitivity in article-utils, under the default [localeCompare] in
    utils. *)
Theorem sortArticles_title_sorted h articles l :
  Comparators.consistent_collation localeCompare_en_base ->
  Comparators.consistent_collation localeCompare ->
  h !! articles = Some l ->
  (exists l', Outcome.yields (ArticleUtils.sortArticles articles "title") h l'
              /\ l' ≡ₚ l
              /\ StronglySorted (Comparators.title_le localeCompare_en_base) l')
  /\ (exists l', Outcome.yields (Utils.sortArticles articles "title") h l'
                 /\ l' ≡ₚ l
                 /\ StronglySorted (Comparators.title_le localeCompare) l').
Proof.
  intros Hbase Hdefault Ha.
  destruct (sortArticles_title_run h articles l Ha) as [Hau Hu].
  split; eexists; (split; [eexists _, _; split; [eassumption|apply lookup_insert_eq]|]).
  all: split; [apply sorted_order_perm|].
  - apply (sorted_order_sorted _ _ (title_consistent _ Hbase)), Forall_True.
  - apply (sorted_order_sorted _ _ (title_consistent _ Hdefault)), Forall_True.
Qed.

(** X5. Sorting by date is idempotent on articles whose timestamps parse:
    sorting the result again leaves the order as it is. *)
Theorem sortArticles_date_idempotent h articles l :
  h !! articles = Some l ->
  Forall Ordering.parses l ->
  (exists r1 h1 l1,
     ArticleUtils.sortArticles articles "date" h = Some (r1, h1)
     /\ h1 !! r1 = Some l1
     /\ Outcome.yields (ArticleUtils.sortArticles r1 "date") h1 l1)
  /\ (exists r1 h1 l1,
        Utils.sortArticles articles "date" h = Some (r1, h1)
        /\ h1 !! r1 = Some l1
        /\ Outcome.yields (Utils.sortArticles r1 "date") h1 l1).
Proof.
  intros Ha HP.
  destruct (sortArticles_date_run h articles l Ha) as [Hau Hu].
  destruct date_consistent as [Cau Cu].
  split; do 3 eexists; (split; [eassumption|]);
    (split; [apply lookup_insert_eq|]).
  - destruct (sortArticles_date_run _ _ _ (lookup_insert_eq h (fresh (dom h))
        (JsArray.sorted_order ArticleUtils.compareByDate l))) as [Hrun _].
    eexists _, _. split; [exact Hrun|].
    rewrite lookup_insert_eq. f_equal. by apply (sorted_order_idemp _ _ Cau).
  - destruct (sortArticles_date_run _ _ _ (lookup_insert_eq h (fresh (dom h))
        (JsArray.sorted_order Utils.compareByDate l))) as [_ Hrun].
    eexists _, _. split; [exact Hrun|].
    rewrite lookup_insert_eq. f_equal. by apply (sorted_order_idemp _ _ Cu).
Qed.

(** X6. For a criterion other than
    ["title"] and ["date"] both variants return a fresh copy that holds the
    articles in the order of the input. *)
Theorem sortArticles_unknown_criterion h articles l sortBy :
  sortBy <> "title" -> sortBy <> "date" ->
  h !! articles = Some l ->
  Sorting.sorts_copy (ArticleUtils.sortArticles articles sortBy) h articles l (eq l)
  /\ Sorting.sorts_copy (Utils.sortArticles articles sortBy) h articles l (eq l).
Proof.
  intros Ht Hd Ha.
  destruct (sortArticles_other_run h articles l sortBy Ht Hd Ha) as [Hau Hu].
  split; exists (fresh (dom h)), (<[fresh (dom h) := l]> h), l.
  all: split; [done|].
  all: split; [by eapply fresh_ne|].
  all: split; [by rewrite lookup_insert_ne by by eapply fresh_ne|].
  all: split; [intros r Hr; by rewrite lookup_insert_ne|].
  all: split; [apply lookup_insert_eq|done].
Qed.

Lemma bind_run {A B C : Type} (m : JsArray.St A B) (k : B -> JsArray.St A C)
    (h h' : JsArray.store A) (b : B) :
  m h = Some (b, h') -> (m ≫= k) h = k b h'.
Proof. unfold mbind, JsArray.St_bind. by intros ->. Qed.

Lemma sortArticles_run_any h articles l sortBy :
  h !! articles = Some l ->
  (exists l', l' ≡ₚ l
     /\ ArticleUtils.sortArticles articles sortBy h
        = Some (fresh (dom h), <[fresh (dom h) := l']> h))
  /\ (exists l', l' ≡ₚ l
        /\ Utils.sortArticles articles sortBy h
           = Some (fresh (dom h), <[fresh (dom h) := l']> h)).
Proof.
  intros Ha.
  destruct (String.eqb_spec sortBy "title") as [->|Ht];
    [|destruct (String.eqb_spec sortBy "date") as [->|Hd]].
  - destruct (sortArticles_title_run h articles l Ha) as [-> ->].
    split; eexists; (split; [apply sorted_order_perm|reflexivity]).
  - destruct (sortArticles_date_run h articles l Ha) as [-> ->].
    split; eexists; (split; [apply sorted_order_perm|reflexivity]).
  - destruct (sortArticles_other_run h articles l sortBy Ht Hd Ha) as [-> ->].
    split; eexists; (split; [reflexivity|reflexivity]).
Qed.

Lemma published_at_time_class z t y :
  Ordering.parses z -> Ordering.parses y -> Ordering.key z = t ->
  (JsArray.SortCompare ArticleUtils.compareByDate z y =? 0)
  = Ordering.published_at_time t y
  /\ (JsArray.SortCompare Utils.compareByDate z y =? 0)
     = Ordering.published_at_time t y.
Proof.
  intros Pz Py <-. unfold JsArray.SortCompare.
  destruct (compareByDate_key z y Pz Py) as [-> ->].
  unfold Ordering.published_at_time. rewrite (parses_timestamp y Py). simpl.
  split; apply bool_decide_ext_Z.
Qed.

Lemma filter_perm {A : Type} (p : A -> bool) (l l' : list A) :
  l' ≡ₚ l -> List.filter p l' ≡ₚ List.filter p l.
Proof.
  induction 1 as [|x l1 l2 _ IH|x y l1|l1 l2 l3 _ IH1 _ IH2]; simpl.
  - done.
  - destruct (p x); [by constructor|done].
  - destruct (p x), (p y); try done. apply Permutation_swap.
  - by etransitivity.
Qed.

Lemma sorted_order_date_stable (comparefn : SpaceflightArticle -> SpaceflightArticle -> number) t l :
  Comparators.consistent_on Ordering.parses comparefn ->
  (forall z y, Ordering.parses z -> Ordering.parses y -> Ordering.key z = t ->
     (JsArray.SortCompare comparefn z y =? 0) = Ordering.published_at_time t y) ->
  Forall Ordering.parses l ->
  List.filter (Ordering.published_at_time t) (JsArray.sorted_order comparefn l)
  = List.filter (Ordering.published_at_time t) l.
Proof.
  intros Hc Hclass HP.
  assert (Forall Ordering.parses (JsArray.sorted_order comparefn l)) as HP'
    by by rewrite sorted_order_perm.
  destruct (List.filter (Ordering.published_at_time t) l) as [|z rest] eqn:Hf.
  - apply Permutation_nil_r. rewrite <- Hf. apply filter_perm, sorted_order_perm.
  - rewrite <- Hf.
    assert (In z (List.filter (Ordering.published_at_time t) l)) as Hz
      by (rewrite Hf; by left).
    apply filter_In in Hz as [Hz Hqz].
    assert (Ordering.parses z) as Pz.
    { apply list_elem_of_In in Hz. exact (proj1 (Forall_forall _ _) HP z Hz). }
    assert (Ordering.key z = t) as Hk.
    { unfold Ordering.published_at_time in Hqz.
      rewrite (parses_timestamp z Pz) in Hqz. simpl in Hqz. lia. }
    rewrite <- (List.filter_ext_in (fun y => JsArray.SortCompare comparefn z y =? 0)).
    2: { intros y Hy%list_elem_of_In. apply Hclass; [done| |done].
         exact (proj1 (Forall_forall _ _) HP' y Hy). }
    rewrite <- (List.filter_ext_in (fun y => JsArray.SortCompare comparefn z y =? 0)
                 (Ordering.published_at_time t) l).
    2: { intros y Hy%list_elem_of_In. apply Hclass; [done| |done].
         exact (proj1 (Forall_forall _ _) HP y Hy). }
    by apply (sorted_order_stable _ _ Hc).
Qed.

(** X7. Sorting by date is stable: for every time value, the articles
    published at that time stand in the result in the order they had in the
    input (timestamps that all parse). *)
Theorem sortArticles_date_stable h articles l t :
  h !! articles = Some l ->
  Forall Ordering.parses l ->
  (exists l', Outcome.yields (ArticleUtils.sortArticles articles "date") h l'
              /\ List.filter (Ordering.published_at_time t) l'
                 = List.filter (Ordering.published_at_time t) l)
  /\ (exists l', Outcome.yields (Utils.sortArticles articles "date") h l'
                 /\ List.filter (Ordering.published_at_time t) l'
                    = List.filter (Ordering.published_at_time t) l).
Proof.
  intros Ha HP.
  destruct (sortArticles_date_run h articles l Ha) as [Hau Hu].
  destruct date_consistent as [Cau Cu].
  split; eexists; (split; [eexists _, _; split; [eassumption|apply lookup_insert_eq]|]).
  - apply sorted_order_date_stable; [done| |done].
    intros z y Pz Py Hk. apply (published_at_time_class z t y Pz Py Hk).
  - apply sorted_order_date_stable; [done| |done].
    intros z y Pz Py Hk. apply (published_at_time_class z t y Pz Py Hk).
Qed.

(** X8. Searching and sorting by date commute on articles whose timestamps
    parse: [processArticles], and the page's memo, which search first and
    sort what was found, give the same list as sorting first and searching
    the sorted array. *)
Theorem search_then_sort_date_commute h articles l term :
  h !! articles = Some l ->
  Forall Ordering.parses l ->
  (exists l',
     Outcome.yields (ArticleUtils.processArticles articles term "date") h l'
     /\ Outcome.yields
          (sorted ← ArticleUtils.sortArticles articles "date";
           ArticleUtils.filterArticlesBySearch sorted term) h l')
  /\ (exists l',
        Outcome.yields (IndexPage.filteredAndSortedArticles articles term "date") h l'
        /\ Outcome.yields
             (sorted ← Utils.sortArticles articles "date";
              Utils.filterArticlesBySearch sorted term) h l').
Proof.
  intros Ha HP.
  destruct (sortArticles_date_run h articles l Ha) as [Hau Hu].
  destruct date_consistent as [Cau Cu].
  unfold ArticleUtils.processArticles, IndexPage.filteredAndSortedArticles.
  unfold ArticleUtils.filterArticlesBySearch, Utils.filterArticlesBySearch.
  destruct (negb (JsString.truthy (JsString.trim term))).
  - split; eexists; split.
    all: eexists _, _; split;
      [first [ erewrite bind_run by reflexivity; eassumption
             | erewrite bind_run by eassumption; reflexivity ]
      | apply lookup_insert_eq ].
  - split; eexists; split.
    1, 3: eexists _, _; split;
      [ erewrite bind_run by (by apply filter_allocates);
        apply sortArticles_date_run, lookup_insert_eq
      | apply lookup_insert_eq ].
    + eexists _, _. split.
      * erewrite bind_run by eassumption.
        apply filter_allocates, lookup_insert_eq.
      * rewrite lookup_insert_eq. f_equal. symmetry.
        by apply (sorted_order_filter _ _ Cau).
    + eexists _, _. split.
      * erewrite bind_run by eassumption.
        apply filter_allocates, lookup_insert_eq.
      * rewrite lookup_insert_eq. f_equal. symmetry.
        by apply (sorted_order_filter _ _ Cu).
Qed.

(** X9. [processArticles] and the page's memo return a fresh array holding
    a permutation of what the search finds, itself a sublist of the input;
    the input array holds what it held. *)
Theorem processArticles_searches_then_sorts h articles l term sortBy :
  h !! articles = Some l ->
  (exists found result h' l',
     Outcome.yields (ArticleUtils.filterArticlesBySearch articles term) h found
     /\ sublist found l
     /\ ArticleUtils.processArticles articles term sortBy h = Some (result, h')
     /\ result <> articles
     /\ h' !! articles = Some l
     /\ h' !! result = Some l'
     /\ l' ≡ₚ found)
  /\ (exists found result h' l',
        Outcome.yields (Utils.filterArticlesBySearch articles term) h found
        /\ sublist found l
        /\ IndexPage.filteredAndSortedArticles articles term sortBy h = Some (result, h')
        /\ result <> articles
        /\ h' !! articles = Some l
        /\ h' !! result = Some l'
        /\ l' ≡ₚ found).
Proof.
  intros Ha.
  unfold ArticleUtils.processArticles, IndexPage.filteredAndSortedArticles.
  unfold ArticleUtils.filterArticlesBySearch, Utils.filterArticlesBySearch.
  destruct (negb (JsString.truthy (JsString.trim term))).
  - destruct (sortArticles_run_any h articles l sortBy Ha)
      as [(l1 & Hp1 & Hr1) (l2 & Hp2 & Hr2)].
    split.
    + exists l, (fresh (dom h)), (<[fresh (dom h) := l1]> h), l1.
      split; [by exists articles, h|]. split; [done|].
      split; [by erewrite bind_run by reflexivity|].
      split; [by eapply fresh_ne|].
      split; [by rewrite lookup_insert_ne by by eapply fresh_ne|].
      split; [apply lookup_insert_eq|done].
    + exists l, (fresh (dom h)), (<[fresh (dom h) := l2]> h), l2.
      split; [by exists articles, h|]. split; [done|].
      split; [by erewrite bind_run by reflexivity|].
      split; [by eapply fresh_ne|].
      split; [by rewrite lookup_insert_ne by by eapply fresh_ne|].
      split; [apply lookup_insert_eq|done].
  - split.
    all: lazymatch goal with
         | |- context [JsArray.filter _ ?p] =>
             pose proof (filter_allocates h articles l p Ha) as Hf;
             pose proof (lookup_insert_eq h (fresh (dom h)) (List.filter p l)) as H1;
             assert (<[fresh (dom h) := List.filter p l]> h !! articles = Some l) as H1a
               by (rewrite lookup_insert_ne by (by eapply fresh_ne); done);
             destruct (sortArticles_run_any _ _ _ sortBy H1)
               as [(l1 & Hp1 & Hr1) (l2 & Hp2 & Hr2)];
             exists (List.filter p l)
         end.
    + eexists _, _, l1.
      split; [by eexists _, _|]. split; [apply filter_is_sublist|].
      split; [erewrite bind_run by exact Hf; exact Hr1|].
      split; [by eapply fresh_ne|].
      split; [by rewrite lookup_insert_ne by by eapply fresh_ne|].
      split; [apply lookup_insert_eq|done].
    + eexists _, _, l2.
      split; [by eexists _, _|]. split; [apply filter_is_sublist|].
      split; [erewrite bind_run by exact Hf; exact Hr2|].
      split; [by eapply fresh_ne|].
      split; [by rewrite lookup_insert_ne by by eapply fresh_ne|].
      split; [apply lookup_insert_eq|done].
Qed.

End SortMoreFacts.

(** Code-unit collation is consistent. *)
Lemma string_compare_trans a b c :
  String.compare a b <> Gt -> String.compare b c <> Gt -> String.compare a c <> Gt.
Proof.
  revert b c. induction a as [|x a IH]; intros [|y b] [|z c]; simpl; try done.
  unfold Ascii.compare.
  destruct (N.compare_spec (N_of_ascii x) (N_of_ascii y)) as [Hxy|Hxy|Hxy];
    destruct (N.compare_spec (N_of_ascii y) (N_of_ascii z)) as [Hyz|Hyz|Hyz];
    destruct (N.compare_spec (N_of_ascii x) (N_of_ascii z)) as [Hxz|Hxz|Hxz];
    try done; try lia; eauto.
Qed.

Lemma compareCodeUnits_consistent :
  Comparators.consistent_collation ReferenceRuntime.compareCodeUnits.
Proof.
  split; unfold ReferenceRuntime.compareCodeUnits.
  - intros a b. rewrite (String.compare_antisym a b).
    destruct (String.compare b a); simpl; lia.
  - intros a b c Hab Hbc.
    pose proof (string_compare_trans a b c) as Ht.
    destruct (String.compare a b), (String.compare b c), (String.compare a c);
      try lia; exfalso; by apply Ht.
Qed.

Lemma consistent_collation_on (compare : string -> string -> Z) (f : string -> string) :
  Comparators.consistent_collation compare ->
  Comparators.consistent_collation (fun a b => compare (f a) (f b)).
Proof. intros [Hsym Htrans]. split; intros; eauto. Qed.

Lemma sortArticles_title_sorted_witness :
  (exists l',
     Outcome.yields
       (@ArticleUtils.sortArticles ReferenceRuntime.runtime 1%positive "title")
       (Examples.store_of [Examples.older; Examples.dated]) l'
     /\ l' ≡ₚ [Examples.older; Examples.dated]
     /\ StronglySorted
          (Comparators.title_le (@localeCompare_en_base ReferenceRuntime.runtime)) l')
  /\ (exists l',
        Outcome.yields
          (@Utils.sortArticles ReferenceRuntime.runtime 1%positive "title")
          (Examples.store_of [Examples.older; Examples.dated]) l'
        /\ l' ≡ₚ [Examples.older; Examples.dated]
        /\ StronglySorted
             (Comparators.title_le (@localeCompare ReferenceRuntime.runtime)) l').
Proof.
  apply (@sortArticles_title_sorted ReferenceRuntime.runtime
           (Examples.store_of [Examples.older; Examples.dated]) 1%positive
           [Examples.older; Examples.dated]).
  - apply (consistent_collation_on _ JsString.toLowerCase compareCodeUnits_consistent).
  - apply compareCodeUnits_consistent.
  - reflexivity.
Defined.

Example sortArticles_title_example :
  Outcome.yields
    (@ArticleUtils.sortArticles ReferenceRuntime.runtime 1%positive "title")
    (Examples.store_of [Examples.older; Examples.dated])
    [Examples.dated; Examples.older].
Proof. eexists _, _. split; [vm_compute; reflexivity | reflexivity]. Qed.

Lemma sortArticles_date_idempotent_witness :
  exists r1 h1 l1,
    @ArticleUtils.sortArticles ReferenceRuntime.runtime 1%positive "date"
      (Examples.store_of [Examples.older; Examples.dated]) = Some (r1, h1)
    /\ h1 !! r1 = Some l1
    /\ Outcome.yields
         (@ArticleUtils.sortArticles ReferenceRuntime.runtime r1 "date") h1 l1.
Proof.
  apply (@sortArticles_date_idempotent ReferenceRuntime.runtime
           (Examples.store_of [Examples.older; Examples.dated]) 1%positive
           [Examples.older; Examples.dated]).
  - reflexivity.
  - repeat constructor; discriminate.
Defined.

Lemma sortArticles_unknown_criterion_witness :
  Sorting.sorts_copy
    (@ArticleUtils.sortArticles ReferenceRuntime.runtime 1%positive "invalid")
    (Examples.store_of [Examples.older; Examples.dated]) 1%positive
    [Examples.older; Examples.dated] (eq [Examples.older; Examples.dated]).
Proof.
  apply (@sortArticles_unknown_criterion ReferenceRuntime.runtime
           (Examples.store_of [Examples.older; Examples.dated]) 1%positive
           [Examples.older; Examples.dated] "invalid");
    [discriminate | discriminate | reflexivity].
Defined.

Lemma sortArticles_date_stable_witness :
  exists l',
    Outcome.yields
      (@ArticleUtils.sortArticles ReferenceRuntime.runtime 1%positive "date")
      (Examples.store_of [Examples.older; Examples.dated; Examples.dated_too]) l'
    /\ List.filter (@Ordering.published_at_time ReferenceRuntime.runtime 1705740300000) l'
       = [Examples.dated; Examples.dated_too].
Proof.
  destruct (@sortArticles_date_stable ReferenceRuntime.runtime
              (Examples.store_of [Examples.older; Examples.dated; Examples.dated_too])
              1%positive [Examples.older; Examples.dated; Examples.dated_too]
              1705740300000 eq_refl
              ltac:(repeat constructor; discriminate))
    as [(l' & Hrun & Hstable) _].
  exists l'. split; [exact Hrun|]. rewrite Hstable. reflexivity.
Defined.

Lemma search_then_sort_date_commute_witness :
  exists l',
    Outcome.yields
      (@ArticleUtils.processArticles ReferenceRuntime.runtime 1%positive "d" "date")
      (Examples.store_of [Examples.older; Examples.dated]) l'
    /\ Outcome.yields
         (sorted ← @ArticleUtils.sortArticles ReferenceRuntime.runtime 1%positive "date";
          ArticleUtils.filterArticlesBySearch sorted "d")
         (Examples.store_of [Examples.older; Examples.dated]) l'.
Proof.
  apply (@search_then_sort_date_commute ReferenceRuntime.runtime
           (Examples.store_of [Examples.older; Examples.dated]) 1%positive
           [Examples.older; Examples.dated] "d").
  - reflexivity.
  - repeat constructor; discriminate.
Defined.

Lemma processArticles_searches_then_sorts_witness :
  exists found result h' l',
    Outcome.yields (ArticleUtils.filterArticlesBySearch 1%positive "older")
      (Examples.store_of [Examples.older; Examples.dated]) found
    /\ sublist found [Examples.older; Examples.dated]
    /\ @ArticleUtils.processArticles ReferenceRuntime.runtime 1%positive "older" "title"
         (Examples.store_of [Examples.older; Examples.dated]) = Some (result, h')
    /\ result <> 1%positive
    /\ h' !! 1%positive = Some [Examples.older; Examples.dated]
    /\ h' !! result = Some l'
    /\ l' ≡ₚ found.
Proof.
  apply (@processArticles_searches_then_sorts ReferenceRuntime.runtime
           (Examples.store_of [Examples.older; Examples.dated]) 1%positive
           [Examples.older; Examples.dated] "older" "title").
  reflexivity.
Defined.

(** ** Truncation, images, relative time and domains, further *)

Lemma append_length (a b : string) :
  String.length (a +:+ b) = (String.length a + String.length b)%nat.
Proof. induction a as [|c a IH]; simpl; [done|]. by rewrite IH. Qed.

Lemma substring_length_le n m s : (String.length (String.substring n m s) <= m)%nat.
Proof.
  revert n m. induction s as [|c s IH]; intros [|n] [|m]; simpl; try lia.
  - specialize (IH 0%nat m). lia.
  - apply (IH n 0%nat).
  - apply (IH n (S m)).
Qed.

Lemma trimEnd_length s : (String.length (JsString.trimEnd s) <= String.length s)%nat.
Proof.
  induction s as [|c s IH]; simpl; [done|].
  destruct (JsString.trimEnd s); [destruct (JsString.isWhiteSpace c)|]; simpl in *; lia.
Qed.

Lemma trim_length s : (String.length (JsString.trim s) <= String.length s)%nat.
Proof.
  unfold JsString.trim.
  pose proof (trimEnd_length (JsString.trimStart s)).
  pose proof (trimStart_length s). lia.
Qed.

(** X10. For a [maxLength] that is not negative, [truncateText] never
    returns more than [maxLength + 3] characters: the cut text and the three
    full stops. *)
Theorem truncateText_length_bound text maxLength :
  0 <= maxLength ->
  Z.of_nat (String.length (ArticleUtils.truncateText text maxLength)) <= maxLength + 3
  /\ Z.of_nat (String.length (Utils.truncateText text maxLength)) <= maxLength + 3.
Proof.
  intros Hm. unfold ArticleUtils.truncateText, Utils.truncateText.
  destruct (Z.leb_spec (Z.of_nat (String.length text)) maxLength); [lia|].
  rewrite slice_from_start by lia. rewrite append_length.
  pose proof (trim_length (String.substring 0 (Z.to_nat maxLength) text)).
  pose proof (substring_length_le 0 (Z.to_nat maxLength) text).
  simpl String.length. lia.
Qed.

Lemma truncateText_length_bound_witness :
  Z.of_nat (String.length
              (ArticleUtils.truncateText
                 "This is a very long text that should be truncated" 20)) <= 23.
Proof.
  apply (truncateText_length_bound
           "This is a very long text that should be truncated" 20).
  lia.
Defined.

Section ImageFacts.

Context `{Runtime}.

(** X11. [getImageUrlWithFallback] returns the URL it was given when that
    is an http or https URL and its placeholder otherwise, and applying it
    to its own result changes nothing, in both variants. *)
Theorem getImageUrlWithFallback_idempotent imageUrl :
  (ArticleUtils.getImageUrlWithFallback imageUrl = imageUrl
   \/ ArticleUtils.getImageUrlWithFallback imageUrl = "/placeholder-space-image.jpg")
  /\ ArticleUtils.getImageUrlWithFallback (ArticleUtils.getImageUrlWithFallback imageUrl)
     = ArticleUtils.getImageUrlWithFallback imageUrl
  /\ (UtilsIndex.getImageUrlWithFallback imageUrl = imageUrl
      \/ UtilsIndex.getImageUrlWithFallback imageUrl = UtilsIndex.placeholder)
  /\ UtilsIndex.getImageUrlWithFallback (UtilsIndex.getImageUrlWithFallback imageUrl)
     = UtilsIndex.getImageUrlWithFallback imageUrl.
Proof.
  unfold ArticleUtils.getImageUrlWithFallback, UtilsIndex.getImageUrlWithFallback.
  repeat split.
  - destruct (ArticleUtils.isValidImageUrl imageUrl); auto.
  - destruct (ArticleUtils.isValidImageUrl imageUrl) eqn:Hv; cbv iota;
      [by rewrite Hv|].
    clear Hv. by destruct (ArticleUtils.isValidImageUrl _).
  - destruct (Utils.isValidImageUrl imageUrl); auto.
  - destruct (Utils.isValidImageUrl imageUrl) eqn:Hv; cbv iota;
      [by rewrite Hv|].
    clear Hv. by destruct (Utils.isValidImageUrl _).
Qed.

(** X12. For a timestamp that lies after [now], [formatRelativeTime] answers
    with a negative count of days, "-N days ago": the elapsed time is
    negative, its count of whole days is at most -1, and no earlier branch
    takes it. *)
Theorem formatRelativeTime_future now dateString t :
  Date_getTime dateString = Num t ->
  now < t ->
  (now - t) / 86400000 <= -1
  /\ ArticleUtils.formatRelativeTime now dateString
     = JsString.ofZ ((now - t) / 86400000) +:+ " days ago".
Proof.
  intros Ht Hfuture.
  assert ((now - t) / 86400000 <= -1) as Hdays
    by (Z.to_euclidean_division_equations; lia).
  split; [done|].
  unfold ArticleUtils.formatRelativeTime. rewrite Ht.
  change (1000 * 60 * 60 * 24) with 86400000. cbv zeta.
  destruct (Z.eqb_spec ((now - t) / 86400000) 0); [lia|].
  destruct (Z.eqb_spec ((now - t) / 86400000) 1); [lia|].
  destruct (Z.ltb_spec ((now - t) / 86400000) 7); [done|lia].
Qed.






End ImageFacts.

Lemma formatRelativeTime_future_witness :
  @ArticleUtils.formatRelativeTime ReferenceRuntime.runtime
    (1705312800000 - 1) "2024-01-15T10:00:00Z" = "-1 days ago".
Proof.
  destruct (@formatRelativeTime_future ReferenceRuntime.runtime
              (1705312800000 - 1) "2024-01-15T10:00:00Z" 1705312800000
              eq_refl ltac:(lia)) as [_ Hanswer].
  rewrite Hanswer. reflexivity.
Defined.


(** ** The loader's headers *)

Section LoaderHeaderFacts.

Variable fetchLatestArticles : number -> Thrown + list SpaceflightArticle.

Variable now_iso : string.

Implicit Types (request : IndexRoute.Request).

Ltac run_loader :=
  unfold IndexRoute.loader, IndexRoute.try_catch, mbind, IndexRoute.Eff_bind,
    IndexRoute.await_fetchLatestArticles.

(** X14. Every response of the loader is typed as JSON.  A success is
    answered with status 200 and may be cached (public, 300 seconds, stale
    for 600 while revalidating); a failure is never cached. *)
Theorem loader_cache_policy request :
  exists response,
    IndexRoute.loader fetchLatestArticles now_iso request []
    = (inr response, [IndexRoute.resolve_limit request])
    /\ IndexRoute.headers response !! "Content-Type" = Some "application/json"
    /\ match fetchLatestArticles (IndexRoute.resolve_limit request) with
       | inr _ =>
           IndexRoute.status response = 200
           /\ IndexRoute.headers response !! "Cache-Control"
              = Some "public, max-age=300, stale-while-revalidate=600"
           /\ IndexRoute.headers response !! "Retry-After" = None
       | inl _ =>
           IndexRoute.headers response !! "Cache-Control"
           = Some "no-cache, no-store, must-revalidate"
       end.
Proof.
  run_loader.
  destruct (fetchLatestArticles (IndexRoute.resolve_limit request)) as [e|fetched];
    simpl.
  - destruct e as [a|name m|]; simpl.
    + destruct (bool_decide (Errors.status a = Some 429)
                || bool_decide (Errors.status a = Some 503)).
      all: eexists; split; [reflexivity|]; split; by vm_compute.
    + eexists; split; [reflexivity|]; split; by vm_compute.
    + eexists; split; [reflexivity|]; split; by vm_compute.
  - eexists. split; [reflexivity|]. repeat split; by vm_compute.
Qed.

(** X15. The loader sends [Retry-After: 60] exactly when the failure is a
    [SpaceflightApiError] with status 429 or 503; no other response carries
    that header. *)
Theorem loader_retry_after request :
  exists response,
    IndexRoute.loader fetchLatestArticles now_iso request []
    = (inr response, [IndexRoute.resolve_limit request])
    /\ match fetchLatestArticles (IndexRoute.resolve_limit request) with
       | inr _ => IndexRoute.headers response !! "Retry-After" = None
       | inl e =>
           (Failure.status_of e = Some 429 \/ Failure.status_of e = Some 503 ->
            IndexRoute.headers response !! "Retry-After" = Some "60")
           /\ (~ (Failure.status_of e = Some 429 \/ Failure.status_of e = Some 503) ->
               IndexRoute.headers response !! "Retry-After" = None)
       end.
Proof.
  run_loader.
  destruct (fetchLatestArticles (IndexRoute.resolve_limit request)) as [e|fetched].
  - destruct e as [a|name m|]; cbn [Failure.status_of].
    + destruct (decide (Errors.status a = Some 429)) as [H429|H429];
        destruct (decide (Errors.status a = Some 503)) as [H503|H503].
      all: rewrite ?(bool_decide_eq_true_2 _ H429), ?(bool_decide_eq_false_2 _ H429),
             ?(bool_decide_eq_true_2 _ H503), ?(bool_decide_eq_false_2 _ H503).
      all: eexists; split; [reflexivity|].
      all: split; intros Hs; try tauto; by vm_compute.
    + eexists; split; [reflexivity|].
      split; [intros [?|?]; discriminate | intros _; by vm_compute].
    + eexists; split; [reflexivity|].
      split; [intros [?|?]; discriminate | intros _; by vm_compute].
  - eexists. split; [reflexivity|]. by vm_compute.
Qed.

End LoaderHeaderFacts.

Lemma loader_retry_after_witness :
  exists response,
    IndexRoute.loader (Examples.rejecting Examples.api_down)
      "2024-01-15T10:00:00.000Z" Examples.plain_request []
    = (inr response, [Num 20])
    /\ IndexRoute.headers response !! "Retry-After" = Some "60".
Proof.
  destruct (loader_retry_after (Examples.rejecting Examples.api_down)
              "2024-01-15T10:00:00.000Z" Examples.plain_request)
    as (response & Hrun & Hretry & _).
  exists response. split; [exact Hrun|]. apply Hretry. right. reflexivity.
Defined.

(** ** The API client, further *)

Section ClientFacts.

Variable remote : string -> SpaceflightApi.Exchange.

Ltac run_client :=
  unfold SpaceflightApi.fetchLatestArticles, SpaceflightApi.fetchArticles,
    SpaceflightApi.fetchArticleById, SpaceflightApi.try_catch,
    SpaceflightApi.throw, SpaceflightApi.await_makeRequest,
    SpaceflightApi.await_json, mbind, mret,
    SpaceflightApi.Api_bind, SpaceflightApi.Api_ret.

Lemma makeRequest_ok net response :
  ApiClient.makeRequest net = inr response ->
  Fetch.settles_at net < 10000
  /\ Fetch.transport net = Fetch.Delivers response
  /\ Fetch.ok response = true.
Proof.
  unfold ApiClient.makeRequest, Fetch.await_fetch.
  destruct (Z.ltb_spec (Fetch.settles_at net) 10000) as [Hlt|Hge].
  - destruct (Fetch.transport net) as [r|name msg].
    + destruct (Fetch.ok r) eqn:Hok; simpl; [|discriminate]. by intros [= ->].
    + by destruct (String.eqb name "AbortError").
  - discriminate.
Qed.

(** X16. Every failure of [fetchArticles], [fetchLatestArticles] and
    [fetchArticleById] is a [SpaceflightApiError]: whatever [makeRequest] or
    [response.json()] throws, no other value leaves the client. *)
Theorem client_failures_typed limit offset ordering id urls e :
  (fst (SpaceflightApi.fetchArticles remote limit offset ordering urls) = inl e ->
   exists a, e = ThrownApiError a)
  /\ (fst (SpaceflightApi.fetchLatestArticles remote limit urls) = inl e ->
      exists a, e = ThrownApiError a)
  /\ (fst (SpaceflightApi.fetchArticleById remote id urls) = inl e ->
      exists a, e = ThrownApiError a).
Proof.
  repeat split; run_client.
  all: match goal with
       | |- context [ApiClient.makeRequest ?net] =>
           destruct (ApiClient.makeRequest net) as [[a| |]|response] eqn:Hreq
       end; simpl; try (intros [= <-]; eauto).
  all: match goal with
       | |- context [SpaceflightApi.json ?x] =>
           destruct (SpaceflightApi.json x) as [[a| |]|data]
       end; simpl; try (intros [= <-]; eauto).
  all: match goal with
       | |- context [negb ?b] => destruct b
       end; simpl; try (intros [= <-]; eauto); discriminate.
Qed.

(** X17. Each call of the client makes exactly one request, whatever its
    outcome: there is no retry.  [fetchLatestArticles] asks for the list at
    offset 0 ordered by [-published_at]; [fetchArticleById] asks for the
    article's own URL. *)
Theorem client_requests_once limit offset ordering id urls :
  snd (SpaceflightApi.fetchArticles remote limit offset ordering urls)
  = (urls ++ [SpaceflightApi.articlesUrl limit offset ordering])%list
  /\ snd (SpaceflightApi.fetchLatestArticles remote limit urls)
     = (urls ++ [SpaceflightApi.articlesUrl limit (Num 0) "-published_at"])%list
  /\ snd (SpaceflightApi.fetchArticleById remote id urls)
     = (urls ++ [SpaceflightApi.articleUrl id])%list.
Proof.
  repeat split; run_client.
  all: match goal with
       | |- context [ApiClient.makeRequest ?net] =>
           destruct (ApiClient.makeRequest net) as [[a| |]|response]
       end; simpl; try reflexivity.
  all: match goal with
       | |- context [SpaceflightApi.json ?x] =>
           destruct (SpaceflightApi.json x) as [[a| |]|data]
       end; simpl; try reflexivity.
  all: match goal with
       | |- context [negb ?b] => destruct b
       end; reflexivity.
Qed.

(** X18. How [fetchArticles] fails.  A failure of [makeRequest] passes
    through unchanged.  After a response, a body that is not JSON gives
    FETCH_ERROR with status 0, and the parser's message is lost; a body of
    the wrong shape gives INVALID_RESPONSE with the status of the response,
    which is a 2xx status. *)
Theorem fetchArticles_failures limit offset ordering urls :
  let url := SpaceflightApi.articlesUrl limit offset ordering in
  let outcome := fst (SpaceflightApi.fetchArticles remote limit offset ordering urls) in
  (forall e,
     ApiClient.makeRequest (SpaceflightApi.network (remote url)) = inl e ->
     outcome = inl e)
  /\ (forall response name msg,
        ApiClient.makeRequest (SpaceflightApi.network (remote url)) = inr response ->
        SpaceflightApi.json (remote url) = inl (ThrownError name msg) ->
        outcome = inl (ThrownApiError
                         {| Errors.message := "Failed to fetch articles";
                            Errors.status := Some 0;
                            Errors.code := Some "FETCH_ERROR" |}))
  /\ (forall response data,
        ApiClient.makeRequest (SpaceflightApi.network (remote url)) = inr response ->
        SpaceflightApi.json (remote url) = inr data ->
        SpaceflightApi.validateApiResponse data = false ->
        200 <= Fetch.status response <= 299
        /\ outcome = inl (ThrownApiError
                            {| Errors.message := "Invalid response format from API";
                               Errors.status := Some (Fetch.status response);
                               Errors.code := Some "INVALID_RESPONSE" |})).
Proof.
  intros url outcome. subst url outcome. split; [|split].
  - intros e He. run_client.
    destruct (makeRequest_throws_typed _ _ He) as [a ->]. by rewrite He.
  - intros response name msg Hreq Hjson. run_client. by rewrite Hreq, Hjson.
  - intros response data Hreq Hjson Hvalid. split.
    + apply makeRequest_ok in Hreq as (_ & _ & Hok). unfold Fetch.ok in Hok. lia.
    + run_client. by rewrite Hreq, Hjson, Hvalid.
Qed.

(** X19. [fetchArticles] succeeds exactly when a response with a 2xx status
    arrives before the timeout, its body is JSON and the JSON has the shape
    of a list response; what it returns is that JSON read at its declared
    type. *)
Theorem fetchArticles_succeeds_iff limit offset ordering urls r :
  let url := SpaceflightApi.articlesUrl limit offset ordering in
  fst (SpaceflightApi.fetchArticles remote limit offset ordering urls) = inr r
  <-> exists response data,
        Fetch.settles_at (SpaceflightApi.network (remote url)) < 10000
        /\ Fetch.transport (SpaceflightApi.network (remote url)) = Fetch.Delivers response
        /\ 200 <= Fetch.status response <= 299
        /\ SpaceflightApi.json (remote url) = inr data
        /\ SpaceflightApi.validateApiResponse data = true
        /\ r = SpaceflightApi.asApiResponse data.
Proof.
  intros url. subst url. split.
  - run_client.
    destruct (ApiClient.makeRequest _) as [[a| |]|response] eqn:Hreq; simpl;
      try discriminate.
    destruct (SpaceflightApi.json _) as [[a| |]|data] eqn:Hjson; simpl;
      try discriminate.
    destruct (SpaceflightApi.validateApiResponse data) eqn:Hvalid; simpl;
      [|discriminate].
    intros [= <-]. apply makeRequest_ok in Hreq as (Ht & Htr & Hok).
    exists response, data. unfold Fetch.ok in Hok. repeat split; try done; lia.
  - intros (response & data & Ht & Htr & Hst & Hjson & Hvalid & ->).
    run_client.
    rewrite (makeRequest_delivers _ response Ht Htr).
    + simpl. by rewrite Hjson, Hvalid.
    + unfold Fetch.ok. destruct (Z.leb_spec 200 (Fetch.status response));
        destruct (Z.leb_spec (Fetch.status response) 299); simpl; lia || done.
Qed.

End ClientFacts.

Section ClientEndToEnd.

Variable remote : string -> SpaceflightApi.Exchange.

Ltac run_client :=
  unfold SpaceflightApi.fetchLatestArticles, SpaceflightApi.fetchArticles,
    SpaceflightApi.fetchArticleById, SpaceflightApi.try_catch,
    SpaceflightApi.throw, SpaceflightApi.await_makeRequest,
    SpaceflightApi.await_json, mbind, mret,
    SpaceflightApi.Api_bind, SpaceflightApi.Api_ret.






Lemma fetchLatestArticles_fails limit urls e :
  fst (SpaceflightApi.fetchArticles remote limit (Num 0) "-published_at" urls) = inl e ->
  fst (SpaceflightApi.fetchLatestArticles remote limit urls) = inl e.
Proof.
  unfold SpaceflightApi.fetchLatestArticles, mbind, SpaceflightApi.Api_bind.
  destruct (SpaceflightApi.fetchArticles _ _ _ _ _) as [[e'|r] urls']; simpl;
    congruence.
Qed.


Lemma fetchArticles_passes limit offset ordering urls a :
  ApiClient.makeRequest
    (SpaceflightApi.network (remote (SpaceflightApi.articlesUrl limit offset ordering)))
  = inl (ThrownApiError a) ->
  fst (SpaceflightApi.fetchArticles remote limit offset ordering urls)
  = inl (ThrownApiError a).
Proof. intros He. run_client. by rewrite He. Qed.

Lemma fetchArticles_settles limit offset ordering urls response :
  ApiClient.makeRequest
    (SpaceflightApi.network (remote (SpaceflightApi.articlesUrl limit offset ordering)))
  = inr response ->
  fst (SpaceflightApi.fetchArticles remote limit offset ordering urls)
  = match SpaceflightApi.json
            (remote (SpaceflightApi.articlesUrl limit offset ordering)) with
    | inl (Errors.ThrownApiError a) => inl (ThrownApiError a)
    | inl _ =>
        inl (ThrownApiError
               {| Errors.message := "Failed to fetch articles";
                  Errors.status := Some 0;
                  Errors.code := Some "FETCH_ERROR" |})
    | inr data =>
        if SpaceflightApi.validateApiResponse data
        then inr (SpaceflightApi.asApiResponse data)
        else inl (ThrownApiError
                    {| Errors.message := "Invalid response format from API";
                       Errors.status := Some (Fetch.status response);
                       Errors.code := Some "INVALID_RESPONSE" |})
    end.
Proof.
  intros He. run_client. rewrite He. simpl.
  destruct (SpaceflightApi.json _) as [[a| |]|data]; simpl; try done.
  by destruct (SpaceflightApi.validateApiResponse data).
Qed.

(** What the loader answers to a [SpaceflightApiError]. *)
Lemma loader_on_api_error
    (api : number -> Thrown + list SpaceflightArticle) now_iso request a :
  api (IndexRoute.resolve_limit request) = inl (ThrownApiError a) ->
  exists response,
    IndexRoute.loader api now_iso request []
    = (inr response, [IndexRoute.resolve_limit request])
    /\ IndexRoute.status response
       = (if 500 <=? match Errors.status a with
                     | Some s => if s =? 0 then 500 else s
                     | None => 500
                     end
          then 500 else 200)
    /\ articles (IndexRoute.body response) = []
    /\ error (IndexRoute.body response) = Some (Errors.message a).
Proof.
  intros He.
  unfold IndexRoute.loader, IndexRoute.try_catch, mbind, IndexRoute.Eff_bind,
    IndexRoute.await_fetchLatestArticles.
  rewrite He. simpl. eexists. split; [reflexivity|]. done.
Qed.


Lemma makeRequest_times_out net :
  10000 <= Fetch.settles_at net ->
  ApiClient.makeRequest net
  = inl (ThrownApiError {| Errors.message := "Request timeout";
                           Errors.status := Some 408;
                           Errors.code := Some "TIMEOUT" |}).
Proof.
  intros Ht. unfold ApiClient.makeRequest, Fetch.await_fetch.
  by destruct (Z.ltb_spec (Fetch.settles_at net) 10000); [lia|].
Qed.

Lemma makeRequest_breaks net name msg :
  Fetch.settles_at net < 10000 ->
  Fetch.transport net = Fetch.Breaks name msg ->
  name <> "AbortError" ->
  ApiClient.makeRequest net
  = inl (ThrownApiError {| Errors.message := "Network error: " +:+ msg;
                           Errors.status := Some 0;
                           Errors.code := Some "NETWORK_ERROR" |}).
Proof.
  intros Ht Htr Hname. unfold ApiClient.makeRequest, Fetch.await_fetch.
  destruct (Z.ltb_spec (Fetch.settles_at net) 10000); [|lia].
  rewrite Htr. by destruct (String.eqb_spec name "AbortError").
Qed.

Lemma makeRequest_http_error net response :
  Fetch.settles_at net < 10000 ->
  Fetch.transport net = Fetch.Delivers response ->
  Fetch.ok response = false ->
  ApiClient.makeRequest net
  = inl (ThrownApiError
           {| Errors.message := "HTTP error! status: "
                                +:+ JsString.ofZ (Fetch.status response);
              Errors.status := Some (Fetch.status response);
              Errors.code := Some (Fetch.statusText response) |}).
Proof.
  intros Ht Htr Hok. unfold ApiClient.makeRequest, Fetch.await_fetch.
  destruct (Z.ltb_spec (Fetch.settles_at net) 10000); [|lia].
  by rewrite Htr, Hok.
Qed.

End ClientEndToEnd.

(** ** The loader on top of the API client *)

Section LoaderOverClient.

Variable remote : string -> SpaceflightApi.Exchange.

Variable now_iso : string.

Implicit Types (request : IndexRoute.Request).

Local Abbreviation upstream request :=
  (remote (SpaceflightApi.articlesUrl (IndexRoute.resolve_limit request)
             (Num 0) "-published_at")).

Lemma loader_over_client_error request a :
  fst (SpaceflightApi.fetchArticles remote (IndexRoute.resolve_limit request)
         (Num 0) "-published_at" [])
  = inl (ThrownApiError a) ->
  Outcome.answers_error (SpaceflightApi.loader remote now_iso request)
    [IndexRoute.resolve_limit request]
    (if 500 <=? match Errors.status a with
                | Some s => if s =? 0 then 500 else s
                | None => 500
                end
     then 500 else 200)
    (Errors.message a).
Proof.
  intros He%fetchLatestArticles_fails.
  destruct (loader_on_api_error
              (fun limit => fst (SpaceflightApi.fetchLatestArticles remote limit []))
              now_iso request a He) as (response & Hrun & Hst & Hart & Herr).
  by exists response.
Qed.

(** X21. Upstream failures of the transport, seen through the loader.  A
    request that times out is answered with HTTP 200 and the error "Request
    timeout" (its status 408 is below 500); a broken transport with HTTP 500
    and "Network error: ..."; an upstream status of 500 or more with HTTP
    500, any other upstream status outside 2xx with HTTP 200. *)
Theorem loader_over_client_transport request :
  let net := SpaceflightApi.network (upstream request) in
  let run := SpaceflightApi.loader remote now_iso request in
  let calls := [IndexRoute.resolve_limit request] in
  (10000 <= Fetch.settles_at net ->
   Outcome.answers_error run calls 200 "Request timeout")
  /\ (forall name msg,
        Fetch.settles_at net < 10000 ->
        Fetch.transport net = Fetch.Breaks name msg ->
        name <> "AbortError" ->
        Outcome.answers_error run calls 500 ("Network error: " +:+ msg))
  /\ (forall response,
        Fetch.settles_at net < 10000 ->
        Fetch.transport net = Fetch.Delivers response ->
        500 <= Fetch.status response ->
        Outcome.answers_error run calls 500
          ("HTTP error! status: " +:+ JsString.ofZ (Fetch.status response)))
  /\ (forall response,
        Fetch.settles_at net < 10000 ->
        Fetch.transport net = Fetch.Delivers response ->
        (0 < Fetch.status response < 200 \/ 300 <= Fetch.status response < 500) ->
        Outcome.answers_error run calls 200
          ("HTTP error! status: " +:+ JsString.ofZ (Fetch.status response))).
Proof.
  intros net run calls. subst net run calls. split; [|split; [|split]].
  - intros Ht.
    apply (loader_over_client_error request
             {| Errors.message := "Request timeout";
                Errors.status := Some 408; Errors.code := Some "TIMEOUT" |}).
    by apply fetchArticles_passes, makeRequest_times_out.
  - intros name msg Ht Htr Hname.
    apply (loader_over_client_error request
             {| Errors.message := "Network error: " +:+ msg;
                Errors.status := Some 0; Errors.code := Some "NETWORK_ERROR" |}).
    by eapply fetchArticles_passes, makeRequest_breaks.
  - intros response Ht Htr Hst.
    assert (Fetch.ok response = false) as Hok.
    { unfold Fetch.ok. destruct (Z.leb_spec (Fetch.status response) 299); [lia|].
      apply andb_false_r. }
    pose proof (loader_over_client_error request _
                  (fetchArticles_passes remote _ _ _ [] _
                     (makeRequest_http_error _ response Ht Htr Hok))) as Hans.
    cbn [Errors.status Errors.message] in Hans.
    destruct (Z.eqb_spec (Fetch.status response) 0); [lia|].
    by destruct (Z.leb_spec 500 (Fetch.status response)); [|lia].
  - intros response Ht Htr Hst.
    assert (Fetch.ok response = false) as Hok.
    { unfold Fetch.ok. destruct (Z.leb_spec 200 (Fetch.status response));
        destruct (Z.leb_spec (Fetch.status response) 299); simpl; lia || done. }
    pose proof (loader_over_client_error request _
                  (fetchArticles_passes remote _ _ _ [] _
                     (makeRequest_http_error _ response Ht Htr Hok))) as Hans.
    cbn [Errors.status Errors.message] in Hans.
    destruct (Z.eqb_spec (Fetch.status response) 0); [lia|].
    by destruct (Z.leb_spec 500 (Fetch.status response)); [lia|].
Qed.

(** X22. Upstream failures of the body, seen through the loader.  After a
    2xx response, a body that is not JSON is answered with HTTP 500 and
    "Failed to fetch articles"; a body of the wrong shape with HTTP 200 and
    "Invalid response format from API", because the error takes the 2xx
    status of the response. *)
Theorem loader_over_client_body request :
  let run := SpaceflightApi.loader remote now_iso request in
  let calls := [IndexRoute.resolve_limit request] in
  forall response,
    ApiClient.makeRequest (SpaceflightApi.network (upstream request)) = inr response ->
    (forall name msg,
       SpaceflightApi.json (upstream request) = inl (ThrownError name msg) ->
       Outcome.answers_error run calls 500 "Failed to fetch articles")
    /\ (forall data,
          SpaceflightApi.json (upstream request) = inr data ->
          SpaceflightApi.validateApiResponse data = false ->
          Outcome.answers_error run calls 200 "Invalid response format from API").
Proof.
  intros run calls response Hreq. subst run calls. split.
  - intros name msg Hjson.
    apply (loader_over_client_error request
             {| Errors.message := "Failed to fetch articles";
                Errors.status := Some 0; Errors.code := Some "FETCH_ERROR" |}).
    rewrite (fetchArticles_settles remote _ _ _ [] response Hreq). by rewrite Hjson.
  - intros data Hjson Hvalid.
    pose proof (loader_over_client_error request
                  {| Errors.message := "Invalid response format from API";
                     Errors.status := Some (Fetch.status response);
                     Errors.code := Some "INVALID_RESPONSE" |}) as Hans.
    cbn [Errors.status Errors.message] in Hans.
    apply makeRequest_ok in Hreq as Hok. destruct Hok as (_ & _ & Hok).
    unfold Fetch.ok in Hok.
    destruct (Z.eqb_spec (Fetch.status response) 0); [lia|].
    destruct (Z.leb_spec 500 (Fetch.status response)); [lia|].
    apply Hans.
    rewrite (fetchArticles_settles remote _ _ _ [] response Hreq).
    by rewrite Hjson, Hvalid.
Qed.


End LoaderOverClient.

Lemma client_failures_typed_witness :
  exists a, ThrownApiError Examples.timeout_error = ThrownApiError a.
Proof.
  apply (client_failures_typed Examples.remote_slow (Num 20) (Num 0) "-published_at"
           (Num 1) [] (ThrownApiError Examples.timeout_error)).
  reflexivity.
Defined.

Example articlesUrl_example :
  SpaceflightApi.articlesUrl (Num 10) (Num 0) "-published_at"
  = "https://api.spaceflightnewsapi.net/v4/articles/?limit=10&offset=0&ordering=-published_at"
  /\ SpaceflightApi.articlesUrl NaN (Num 0) "-published_at"
     = "https://api.spaceflightnewsapi.net/v4/articles/?limit=NaN&offset=0&ordering=-published_at"
  /\ SpaceflightApi.articleUrl (Num 1)
     = "https://api.spaceflightnewsapi.net/v4/articles/1/".
Proof. repeat split. Qed.

Lemma fetchArticles_failures_witness :
  fst (SpaceflightApi.fetchArticles (Examples.remote_ok (inr Json.JNull))
         (Num 20) (Num 0) "-published_at" [])
  = inl (ThrownApiError
           {| Errors.message := "Invalid response format from API";
              Errors.status := Some 200;
              Errors.code := Some "INVALID_RESPONSE" |}).
Proof.
  pose proof (fetchArticles_failures (Examples.remote_ok (inr Json.JNull))
                (Num 20) (Num 0) "-published_at" []) as Hfail.
  cbv zeta in Hfail. destruct Hfail as (_ & _ & Hinvalid).
  apply (Hinvalid Examples.ok_response Json.JNull); reflexivity.
Defined.

Lemma loader_over_client_transport_witness :
  Outcome.answers_error
    (SpaceflightApi.loader Examples.remote_slow "2024-01-15T10:00:00.000Z"
       Examples.plain_request)
    [Num 20] 200 "Request timeout".
Proof.
  pose proof (loader_over_client_transport Examples.remote_slow
                "2024-01-15T10:00:00.000Z" Examples.plain_request) as Htransport.
  cbv zeta in Htransport. destruct Htransport as [Htimeout _].
  apply Htimeout. simpl. lia.
Defined.

Lemma loader_over_client_body_witness :
  Outcome.answers_error
    (SpaceflightApi.loader (Examples.remote_ok (inr Json.JNull))
       "2024-01-15T10:00:00.000Z" Examples.plain_request)
    [Num 20] 200 "Invalid response format from API".
Proof.
  pose proof (loader_over_client_body (Examples.remote_ok (inr Json.JNull))
                "2024-01-15T10:00:00.000Z" Examples.plain_request) as Hbody.
  cbv zeta in Hbody.
  destruct (Hbody Examples.ok_response eq_refl) as [_ Hshape].
  apply (Hshape Json.JNull); reflexivity.
Defined.


(** ** Debouncing *)

Section DebounceFacts.

Context {Args : Type}.

Variable wait : Z.

Implicit Types (s : Debounce.state Args) (a b : Args).

Import Debounce.

Lemma debounced_arms s a :
  at_most_one_pending s ->
  invoked (debounced wait a s) = invoked s
  /\ clock (debounced wait a s) = clock s
  /\ timeout (debounced wait a s) = Some (next_id s)
  /\ pending (debounced wait a s) = {[next_id s := (clock s + wait, a)]}.
Proof.
  intros [Hempty|(id & due & args & Ht & Hp)]; unfold debounced.
  - destruct (timeout s); simpl; rewrite Hempty, ?delete_empty, insert_empty; done.
  - rewrite Ht. simpl. rewrite Hp, delete_singleton_eq, insert_empty. done.
Qed.

Lemma advance_before s dt id due a :
  pending s = {[id := (due, a)]} ->
  clock s + dt < due ->
  invoked (advance dt s) = invoked s
  /\ clock (advance dt s) = clock s + dt
  /\ timeout (advance dt s) = timeout s
  /\ pending (advance dt s) = {[id := (due, a)]}.
Proof.
  intros Hp Hlt. unfold advance. simpl. rewrite Hp, map_to_list_singleton.
  unfold due_by. simpl.
  destruct (Z.leb_spec due (clock s + dt)); [lia|]. simpl.
  rewrite app_nil_r, map_filter_singleton_True by done. done.
Qed.

Lemma advance_after s dt id due a :
  pending s = {[id := (due, a)]} ->
  due <= clock s + dt ->
  invoked (advance dt s) = (invoked s ++ [(due, a)])%list
  /\ pending (advance dt s) = ∅.
Proof.
  intros Hp Hle. unfold advance. simpl. rewrite Hp, map_to_list_singleton.
  unfold due_by. simpl.
  destruct (Z.leb_spec due (clock s + dt)); [|lia]. simpl.
  rewrite map_filter_singleton_False by (simpl; lia). done.
Qed.

Lemma advance_idle s dt :
  pending s = ∅ ->
  invoked (advance dt s) = invoked s /\ pending (advance dt s) = ∅.
Proof.
  intros Hp. unfold advance. simpl. rewrite Hp, map_to_list_empty. simpl.
  by rewrite app_nil_r, map_filter_empty.
Qed.

Lemma debounce_at_most_one_pending_helper s :
  reachable wait s -> at_most_one_pending s.
Proof.
  induction 1 as [now first_id|s args _ IH|s dt Hdt _ IH].
  - by left.
  - destruct (debounced_arms s args IH) as (_ & _ & Ht & Hp).
    right. by exists (next_id s), (clock s + wait), args.
  - destruct IH as [Hempty|(id & due & args & Ht & Hp)].
    + left. by apply advance_idle.
    + destruct (Z.lt_ge_cases (clock s + dt) due) as [Hlt|Hge].
      * destruct (advance_before s dt id due args Hp Hlt) as (_ & _ & Ht' & Hp').
        right. exists id, due, args. by rewrite Ht'.
      * left. by apply (advance_after s dt id due args Hp Hge).
Qed.

(** X24. A debounced function never has more than one timer pending, and
    the pending timer is the one whose handle it keeps. *)
Theorem debounce_at_most_one_pending s :
  reachable wait s -> at_most_one_pending s.
Proof. apply debounce_at_most_one_pending_helper. Qed.




End DebounceFacts.

Lemma debounce_at_most_one_pending_witness :
  Debounce.at_most_one_pending
    (Debounce.debounced 100 "second"
       (Debounce.advance 50
          (Debounce.debounced 100 "first" (Debounce.debounce 0 1%positive)))).
Proof.
  apply (debounce_at_most_one_pending 100).
  apply Debounce.reach_call, Debounce.reach_advance; [lia|].
  apply Debounce.reach_call, Debounce.reach_debounce.
Defined.


Example debounce_runs :
  Debounce.invoked
    (Debounce.advance 100
       (Debounce.burst 100 "first" [(50, "second")] (Debounce.debounce 0 1%positive)))
  = [(150, "second")].
Proof. vm_compute. reflexivity. Qed.

(** ** Hex colours *)

Section HexFacts.

Import AccessibilityUtils.

Lemma in_all_code_units c : In c CodeUnits.all.
Proof.
  unfold CodeUnits.all. apply in_map_iff. exists (nat_of_ascii c).
  split; [apply ascii_nat_embedding|].
  apply in_seq. pose proof (nat_ascii_bounded c). lia.
Qed.

Lemma for_all_pairs (check : ascii -> ascii -> bool) :
  forallb (fun c1 => forallb (check c1) CodeUnits.all) CodeUnits.all = true ->
  forall c1 c2, check c1 c2 = true.
Proof.
  intros Hall c1 c2.
  pose proof (proj1 (forallb_forall _ _) Hall c1 (in_all_code_units c1)) as H1.
  exact (proj1 (forallb_forall _ _) H1 c2 (in_all_code_units c2)).
Qed.


Lemma parseInt16_lower c1 c2 :
  isHexDigit c1 = true -> isHexDigit c2 = true ->
  parseInt16 (pair_of (JsString.toLowerChar c1) (JsString.toLowerChar c2))
  = parseInt16 (pair_of c1 c2).
Proof.
  intros H1 H2.
  pose proof (for_all_pairs CodeUnits.lower_ok ltac:(vm_compute; reflexivity) c1 c2)
    as Hok.
  unfold CodeUnits.lower_ok in Hok. rewrite H1, H2 in Hok. simpl in Hok.
  destruct (parseInt16 (pair_of (JsString.toLowerChar c1) (JsString.toLowerChar c2))),
    (parseInt16 (pair_of c1 c2)); simpl in Hok; try done.
  f_equal. lia.
Qed.

Lemma isHexDigit_lower c : isHexDigit (JsString.toLowerChar c) = isHexDigit c.
Proof. destruct c as [[] [] [] [] [] [] [] []]; reflexivity. Qed.

Lemma hash_lower c : Ascii.eqb (JsString.toLowerChar c) "#" = Ascii.eqb c "#".
Proof. destruct c as [[] [] [] [] [] [] [] []]; reflexivity. Qed.

Lemma list_ascii_lower s :
  list_ascii_of_string (JsString.toLowerCase s)
  = List.map JsString.toLowerChar (list_ascii_of_string s).
Proof. induction s as [|c s IH]; simpl; [done|]. by rewrite IH. Qed.


(** X27. [hexToRgb] does not depend on the case of the hex digits: a colour
    and its lower-cased spelling give the same result. *)
Theorem hexToRgb_case_insensitive hex :
  hexToRgb (JsString.toLowerCase hex) = hexToRgb hex.
Proof.
  unfold hexToRgb.
  assert (forall s, match list_ascii_of_string (JsString.toLowerCase s) with
                    | [c1; c2; c3; c4; c5; c6] =>
                        if forallb isHexDigit [c1; c2; c3; c4; c5; c6]
                        then Some {| r := parseInt16 (pair_of c1 c2);
                                     g := parseInt16 (pair_of c3 c4);
                                     b := parseInt16 (pair_of c5 c6) |}
                        else None
                    | _ => None
                    end
                    = match list_ascii_of_string s with
                      | [c1; c2; c3; c4; c5; c6] =>
                          if forallb isHexDigit [c1; c2; c3; c4; c5; c6]
                          then Some {| r := parseInt16 (pair_of c1 c2);
                                       g := parseInt16 (pair_of c3 c4);
                                       b := parseInt16 (pair_of c5 c6) |}
                          else None
                      | _ => None
                      end) as Hbody.
  { intros s. rewrite list_ascii_lower.
    destruct (list_ascii_of_string s)
      as [|c1 [|c2 [|c3 [|c4 [|c5 [|c6 [|c7 l]]]]]]]; try done.
    cbn [List.map forallb]. rewrite !isHexDigit_lower.
    destruct (isHexDigit c1) eqn:H1; [|done].
    destruct (isHexDigit c2) eqn:H2; [|done].
    destruct (isHexDigit c3) eqn:H3; [|done].
    destruct (isHexDigit c4) eqn:H4; [|done].
    destruct (isHexDigit c5) eqn:H5; [|done].
    destruct (isHexDigit c6) eqn:H6; [|done].
    cbn [andb]. by rewrite !parseInt16_lower. }
  destruct hex as [|c rest]; [done|].
  cbn [JsString.toLowerCase]. rewrite hash_lower.
  destruct (Ascii.eqb c "#").
  - apply Hbody.
  - apply (Hbody (String c rest)).
Qed.

End HexFacts.


Example hexToRgb_examples :
  AccessibilityUtils.hexToRgb "#2563EB"
  = Some {| AccessibilityUtils.r := Num 37; AccessibilityUtils.g := Num 99;
            AccessibilityUtils.b := Num 235 |}
  /\ AccessibilityUtils.hexToRgb "ffffff"
     = Some {| AccessibilityUtils.r := Num 255; AccessibilityUtils.g := Num 255;
               AccessibilityUtils.b := Num 255 |}
  /\ AccessibilityUtils.hexToRgb "#fff" = None
  /\ AccessibilityUtils.hexToRgb "#gggggg" = None.
Proof. repeat split. Qed.

(** ** Validation, further *)

(** X28. A value that [validateArticle] accepts is an object whose seven
    members have the declared types, and reading it as an article loses none
    of them: the JSON object of the article read has the same seven
    members. *)
Theorem validateArticle_reads_all_members article key :
  SpaceflightApi.validateArticle article = true ->
  In key ["id"; "title"; "summary"; "image_url"; "news_site"; "published_at"; "url"] ->
  is_Some (Json.prop article key)
  /\ Json.prop (Encode.article [] (SpaceflightApi.asArticle article)) key
     = Json.prop article key.
Proof.
  unfold SpaceflightApi.validateArticle.
  destruct article as [| | | |items|fields]; try discriminate.
  cbn [Json.is_object negb]. intros Hvalid.
  repeat (apply andb_prop in Hvalid as [Hvalid ?]).
  unfold SpaceflightApi.asArticle, Encode.article, Json.prop in *.
  cbn [app].
  intros [<-|[<-|[<-|[<-|[<-|[<-|[<-|[]]]]]]]].
  all: match goal with
       | Hk : _ (Json.field ?fs ?k) = true
         |- context [Json.field ?fs ?k] =>
           destruct (Json.field fs k) as [[]|]; try discriminate Hk
       end.
  all: split; [by eexists | reflexivity].
Qed.

Lemma validateArticle_reads_all_members_witness :
  is_Some (Json.prop (Encode.article [("featured", Json.JBool false)] Examples.dated)
             "published_at")
  /\ Json.prop
       (Encode.article []
          (SpaceflightApi.asArticle
             (Encode.article [("featured", Json.JBool false)] Examples.dated)))
       "published_at"
     = Json.prop (Encode.article [("featured", Json.JBool false)] Examples.dated)
         "published_at".
Proof.
  apply (validateArticle_reads_all_members
           (Encode.article [("featured", Json.JBool false)] Examples.dated)
           "published_at").
  - reflexivity.
  - simpl. tauto.
Defined.
